(** * GitSavvy diff view: word-diff post-processing, hunk coordinates and
      fuzzy hunk search

    A shallow embedding of the pure parts of [core/commands/diff.py]:
    - [postprocess_word_diff] (with the marker regular expression
      [WORD_DIFF_MARKERS_RE] and the [re.sub] driver it runs under),
    - [real_rowcol_in_hunk], [counted_lines] and [_recount_lines],
    - [fuzzy_search_hunk_content_in_view] and [shrink_list_sym].

    Python [str] is a list of characters, Python [int] is [Z], a list index
    that Python rejects is the explicit outcome [IndexError]. *)

From Stdlib Require Import ZArith Ascii String List Bool Lia Sorted.
From Equations Require Import Equations.
Import ListNotations.

Local Open Scope Z_scope.

(** ** Python values *)

Definition str := list ascii.

(** A string literal of the source. *)
Definition lit (s : string) : str := list_ascii_of_string s.

(** [len(x)] *)
Definition len {A : Type} (l : list A) : Z := Z.of_nat (length l).

(** Where a slice bound lands in a sequence of length [n]:
    negative bounds count from the end, everything is clamped to [0, n]. *)
Definition slice_bound (n i : Z) : Z :=
  if i <? 0 then Z.max 0 (n + i) else Z.min i n.

(** [l[lo:hi]] *)
Definition py_slice {A : Type} (l : list A) (lo hi : Z) : list A :=
  let lo' := slice_bound (len l) lo in
  let hi' := slice_bound (len l) hi in
  firstn (Z.to_nat (hi' - lo')) (skipn (Z.to_nat lo') l).

(** [l[lo:]] *)
Definition py_slice_from {A : Type} (l : list A) (lo : Z) : list A :=
  skipn (Z.to_nat (slice_bound (len l) lo)) l.

(** [l[i]]; [None] stands for the [IndexError] Python raises. *)
Definition py_index {A : Type} (l : list A) (i : Z) : option A :=
  if (0 <=? i) && (i <? len l) then nth_error l (Z.to_nat i)
  else if (- len l <=? i) && (i <? 0) then nth_error l (Z.to_nat (len l + i))
  else None.

(** [sublime.Region(a, b)] *)
Record Region : Type := mkRegion { reg_a : Z; reg_b : Z }.

(** ** The marker regular expression

    [WORD_DIFF_MARKERS_RE = re.compile(r"{\+(.*?)\+}|\[-(.*?)-\]")]

    Both alternatives are a two-character opener, a lazy [.*?] (any
    character but a newline) and a two-character closer. *)

Definition newline : ascii := "010"%char.

(** The lazy body followed by the closer [c1 c2]: at every position the
    closer is tried first, and only when it fails does [.] take one more
    character.  The result counts the characters consumed, closer
    included. *)
Fixpoint lazy_until (c1 c2 : ascii) (s : str) : option nat :=
  match s with
  | x :: ((y :: _) as s') =>
      if (x =? c1)%char && (y =? c2)%char then Some 2%nat
      else if (x =? newline)%char then None
      else option_map S (lazy_until c1 c2 s')
  | _ => None
  end.

(** One alternative tried at the head of [s]. *)
Definition alternative (o1 o2 c1 c2 : ascii) (s : str) : option nat :=
  match s with
  | x :: y :: s' =>
      if (x =? o1)%char && (y =? o2)%char
      then option_map (fun n => S (S n)) (lazy_until c1 c2 s')
      else None
  | _ => None
  end.

(** The whole pattern tried at the head of [s]: the length of the match. *)
Definition match_here (s : str) : option nat :=
  match alternative "{" "+" "+" "}" s with
  | Some n => Some n
  | None => alternative "[" "-" "-" "]" s
  end.

(** A match object: [m.group()] and [m.span()]. *)
Record Match : Type := mkMatch { m_group : str; m_start : Z; m_end : Z }.

Lemma lazy_until_bounds c1 c2 s n :
  lazy_until c1 c2 s = Some n -> (2 <= n <= length s)%nat.
Proof.
  revert n; induction s as [|x s IH]; intros n; simpl; [discriminate|].
  destruct s as [|y s']; [discriminate|].
  destruct ((x =? c1)%char && (y =? c2)%char).
  - intros [= <-]. simpl. lia.
  - destruct (x =? newline)%char; [discriminate|].
    destruct (lazy_until c1 c2 (y :: s')) as [k|] eqn:E; [|discriminate].
    intros [= <-]. specialize (IH k eq_refl). simpl in *. lia.
Qed.

Lemma alternative_bounds o1 o2 c1 c2 s n :
  alternative o1 o2 c1 c2 s = Some n -> (4 <= n <= length s)%nat.
Proof.
  destruct s as [|x [|y s']]; simpl; try discriminate.
  destruct ((x =? o1)%char && (y =? o2)%char); [|discriminate].
  destruct (lazy_until c1 c2 s') as [k|] eqn:E; [|discriminate].
  intros [= <-]. apply lazy_until_bounds in E. lia.
Qed.

Lemma match_here_bounds s n :
  match_here s = Some n -> (4 <= n <= length s)%nat.
Proof.
  unfold match_here.
  destruct (alternative "{" "+" "+" "}" s) as [k|] eqn:E.
  - intros [= <-]. eapply alternative_bounds; eauto.
  - apply alternative_bounds.
Qed.

(** ** [re.sub] with a callable replacement

    [pattern.sub(repl, text)] walks the text left to right; at each position
    it tries the pattern, and on a match calls [repl] with the match object,
    emits what [repl] returns and resumes right after the match.  The
    callback of the source mutates two lists it closes over, so the
    callback's state [St] is threaded through the walk. *)

(** The equation of a scrutinee, kept for the termination proofs. *)
Definition inspect {A : Type} (x : A) : {y : A | x = y} := exist _ x eq_refl.

Equations? re_sub {St : Type} (repl : Match -> St -> str * St)
    (pos : Z) (s : str) (st : St) : str * St by wf (length s) lt :=
  re_sub repl pos [] st := ([], st);
  re_sub repl pos (c :: s') st with inspect (match_here (c :: s')) := {
    | exist _ (Some n) _ =>
        let m := mkMatch (firstn n (c :: s')) pos (pos + Z.of_nat n) in
        let r := repl m st in
        let rest := re_sub repl (pos + Z.of_nat n) (skipn n (c :: s')) (snd r) in
        (fst r ++ fst rest, snd rest)
    | exist _ None _ =>
        let rest := re_sub repl (pos + 1) s' st in
        (c :: fst rest, snd rest) }.
Proof.
  apply match_here_bounds in e.
  rewrite length_skipn. cbn [length] in *. lia.
Qed.

(** [pattern.finditer(text)]: the match objects of the same walk. *)
Equations? finditer (pos : Z) (s : str) : list Match by wf (length s) lt :=
  finditer pos [] := [];
  finditer pos (c :: s') with inspect (match_here (c :: s')) := {
    | exist _ (Some n) _ =>
        mkMatch (firstn n (c :: s')) pos (pos + Z.of_nat n)
          :: finditer (pos + Z.of_nat n) (skipn n (c :: s'))
    | exist _ None _ => finditer (pos + 1) s' }.
Proof.
  apply match_here_bounds in e.
  rewrite length_skipn. cbn [length] in *. lia.
Qed.

(** ** [postprocess_word_diff] *)

(** The two lists the callback appends to. *)
Definition regions_state : Type := list Region * list Region.

(** [s[i] == ch]; the index is in range wherever the source uses it (a
    match has at least four characters, [match_here_bounds]). *)
Definition is_char (x : option ascii) (ch : ascii) : bool :=
  match x with
  | Some c => (c =? ch)%char
  | None => false
  end.

(** The inner function [extractor(match)]. *)
Definition extractor (global_offset : Z) (m : Match) (st : regions_state)
  : str * regions_state :=
  let '(added_regions, removed_regions) := st in
  let text := py_slice (m_group m) 2 (-2) in
  let total_matches_so_far := len added_regions + len removed_regions in
  let start := m_start m in
  let offset := global_offset + start - total_matches_so_far * 4 in
  let region := mkRegion offset (offset + len text) in
  if is_char (py_index (m_group m) 1) "+"
  then (text, (added_regions ++ [region], removed_regions))
  else (text, (added_regions, removed_regions ++ [region])).

Definition postprocess_word_diff (text : str) (global_offset : Z)
  : str * list Region * list Region :=
  let r := re_sub (extractor global_offset) 0 text ([], []) in
  (fst r, fst (snd r), snd (snd r)).

(** ** Hunks and their lines *)

(** The part of [parse_diff.HunkLine] the functions below call: the three
    classification tests and the [content] property. *)
Class HunkLineOps (L : Type) : Type := {
  is_from_line : L -> bool;
  is_to_line : L -> bool;
  is_context : L -> bool;
  content : L -> str
}.

(** What the functions below read of a [parse_diff.Hunk]:
    [hunk.header().from_line_start()] and [hunk.content().lines()]. *)
Record Hunk (L : Type) : Type := mkHunk {
  from_line_start : option Z;
  lines : list L
}.
Arguments mkHunk {L} _ _.
Arguments from_line_start {L} _.
Arguments lines {L} _.

(** [HunkLineWithB = namedtuple('HunkLineWithB', 'line b')] *)
Record HunkLineWithB (L : Type) : Type := mkHunkLineWithB {
  hl_line : L;
  hl_b : Z
}.
Arguments mkHunkLineWithB {L} _ _.
Arguments hl_line {L} _.
Arguments hl_b {L} _.

(** Modelled from the spec: [parse_diff.HunkLine] is not part of the
    sources at hand.  A content line is its text; the first character is the
    marker ([-] deletion, [+] addition, space context) and [content] is the
    text after the marker.  A line of a hunk is never empty; on an empty
    text the three tests answer false here. *)
Record TextLine : Type := mkTextLine { line_text : str }.

#[export] Instance TextLine_ops : HunkLineOps TextLine := {|
  is_from_line l := is_char (py_index (line_text l) 0) "-";
  is_to_line l := is_char (py_index (line_text l) 0) "+";
  is_context l := is_char (py_index (line_text l) 0) " ";
  content l := py_slice_from (line_text l) 1
|}.

(** [str.isspace] on the characters below 256. *)
Definition isspace (c : ascii) : bool :=
  let n := nat_of_ascii c in
  ((9 <=? n) && (n <=? 13) || (28 <=? n) && (n <=? 32)
   || (n =? 133) || (n =? 160))%nat.

(** [s.lstrip()], [s.rstrip()] and [s.strip()] *)
Fixpoint lstrip (s : str) : str :=
  match s with
  | c :: s' => if isspace c then lstrip s' else s
  | [] => []
  end.

Definition rstrip (s : str) : str := rev (lstrip (rev s)).

Definition strip (s : str) : str := rstrip (lstrip s).

(** The truth value of a string: empty is false. *)
Definition truthy (s : str) : bool :=
  match s with
  | [] => false
  | _ :: _ => true
  end.

(** What a call does: it returns, or an index is out of range. *)
Inductive outcome (A : Type) : Type :=
| Returns (a : A)
| IndexError.
Arguments Returns {A} _.
Arguments IndexError {A}.

Section RowCol.

Context {L : Type} `{HunkLineOps L}.

(** [utils.line_indentation], not part of the sources at hand. *)
Variable line_indentation : str -> Z.

(** The generator [_recount_lines(lines, b)], run to its end. *)
Fixpoint _recount_lines (lines : list L) (b : Z) : list (HunkLineWithB L) :=
  match lines with
  | [] => []
  | line :: rest =>
      mkHunkLineWithB line b
        :: _recount_lines rest (if negb (is_from_line line) then b + 1 else b)
  end.

Definition counted_lines (hunk : Hunk L) : option (list (HunkLineWithB L)) :=
  match from_line_start hunk with
  | None => None
  | Some b => Some (_recount_lines (lines hunk) b)
  end.

(** The generator expression under [next(..., 1)]: the indices, counted
    from [index], of the lines that are no deletion and have content. *)
Fixpoint first_with_content (index : Z) (hunk_lines : list (HunkLineWithB L))
  : option Z :=
  match hunk_lines with
  | [] => None
  | hl :: rest =>
      if negb (is_from_line (hl_line hl))
         && truthy (strip (content (hl_line hl)))
      then Some index
      else first_with_content (index + 1) rest
  end.

(** The [for ... else] over [hunk_lines[row_in_hunk:]]. *)
Fixpoint next_available (line : L) (b col : Z)
    (following : list (HunkLineWithB L)) : Z * Z :=
  match following with
  | [] => (b, 1)
  | hl :: rest =>
      let next_line := hl_line hl in
      let next_b := hl_b hl in
      if is_to_line next_line
      then (next_b, Z.min col (len (content next_line) + 1))
      else if is_context next_line
      then
        let next_lines_indentation := line_indentation (content next_line) in
        if next_lines_indentation =? line_indentation (content line)
        then (next_b, next_lines_indentation + 1)
        else (Z.max 1 (b - 1), 1)
      else next_available line b col rest
  end.

Definition real_rowcol_in_hunk (hunk : Hunk L) (relative_rowcol : Z * Z)
  : outcome (option (Z * Z)) :=
  match counted_lines hunk with
  | None => Returns None
  | Some [] => Returns None
  | Some hunk_lines =>
      let '(row_in_hunk, col) := relative_rowcol in
      let '(row_in_hunk, col) :=
        if row_in_hunk =? 0
        then (match first_with_content 1 hunk_lines with
              | Some index => index
              | None => 1
              end, 1)
        else (row_in_hunk, col) in
      match py_index hunk_lines (row_in_hunk - 1) with
      | None => IndexError
      | Some hl =>
          let line := hl_line hl in
          let b := hl_b hl in
          if negb (is_from_line line)
          then Returns (Some (b, col))
          else Returns (Some (next_available line b col
                                (py_slice_from hunk_lines row_in_hunk)))
      end
  end.

End RowCol.

(** ** Fuzzy hunk search *)

Lemma py_slice_length {A : Type} (l : list A) (lo hi : Z) :
  (length (py_slice l lo hi) <= length l - Z.to_nat (slice_bound (len l) lo))%nat.
Proof.
  unfold py_slice. rewrite length_firstn, length_skipn. lia.
Qed.

(** The generator [shrink_list_sym(list)], run to its end. *)
Equations? shrink_list_sym {T : Type} (lst : list T) : list (list T)
    by wf (length lst) lt :=
  shrink_list_sym [] := [];
  shrink_list_sym (x :: l) := (x :: l) :: shrink_list_sym (py_slice (x :: l) 1 (-1)).
Proof.
  pose proof (py_slice_length (x :: l) 1 (-1)) as P.
  unfold slice_bound, len in P. cbn [length] in *.
  destruct (1 <? 0) eqn:E; lia.
Qed.

(** [sep.join(parts)] *)
Fixpoint join (sep : str) (parts : list str) : str :=
  match parts with
  | [] => []
  | [p] => p
  | p :: rest => p ++ sep ++ join sep rest
  end.

Section FuzzySearch.

(** The view, as the search sees it.  [view_find pattern] is
    [view.find(pattern, 0, sublime.LITERAL)], with [None] for a result the
    [if region:] test rejects.  [head_and_hunk_for_pt] is the method of
    [SplittedDiff.from_view(view)], and [hunk_header] gives
    [hunk.header()] as the region from its [a] to its [b]. *)
Variables Head ViewHunk : Type.
Variable view_find : str -> option Region.
Variable head_and_hunk_for_pt : Z -> option (Head * ViewHunk).
Variable hunk_header : ViewHunk -> Region.

(** The body of the [for] loop over the candidates. *)
Fixpoint search_candidates (candidates : list (list str)) : option Region :=
  match candidates with
  | [] => None
  | hunk_content :: rest =>
      match view_find (join [newline] hunk_content) with
      | Some region =>
          match head_and_hunk_for_pt (reg_a region) with
          | Some (_, hunk) =>
              Some (mkRegion (reg_a (hunk_header hunk)) (reg_b (hunk_header hunk)))
          | None => None
          end
      | None => search_candidates rest
      end
  end.

Definition fuzzy_search_hunk_content_in_view (lines : list str)
  : option Region :=
  search_candidates (shrink_list_sym lines).

End FuzzySearch.

(** * Properties *)

(** ** Slices and indices *)

Lemma len_nonneg {A : Type} (l : list A) : 0 <= len l.
Proof. unfold len. lia. Qed.

Lemma len_app {A : Type} (l1 l2 : list A) : len (l1 ++ l2) = len l1 + len l2.
Proof. unfold len. rewrite length_app. lia. Qed.

Lemma len_cons {A : Type} (x : A) (l : list A) : len (x :: l) = 1 + len l.
Proof. unfold len. cbn [length]. lia. Qed.

Lemma py_slice_inner {A : Type} (o1 o2 c1 c2 : A) (t : list A) :
  py_slice (o1 :: o2 :: t ++ [c1; c2]) 2 (-2) = t.
Proof.
  unfold py_slice, slice_bound.
  rewrite !len_cons, len_app. change (len [c1; c2]) with 2.
  pose proof (len_nonneg t) as Ht.
  destruct (2 <? 0) eqn:E1; [lia|].
  destruct (-2 <? 0) eqn:E2; [|lia].
  replace (Z.to_nat (Z.min 2 (1 + (1 + (len t + 2))))) with 2%nat by lia.
  replace (Z.to_nat _) with (length t) by (unfold len in *; lia).
  cbn [skipn]. rewrite firstn_app, firstn_all, Nat.sub_diag.
  cbn [firstn]. apply app_nil_r.
Qed.

(** A window read with naturals is the slice read with integers. *)
Lemma py_slice_window {A : Type} (l t : list A) (a : Z) :
  0 <= a ->
  firstn (length t) (skipn (Z.to_nat a) l) = t ->
  py_slice l a (a + len t) = t.
Proof.
  intros Ha Hw.
  assert (Hl : (length t <= length l - Z.to_nat a)%nat).
  { apply (f_equal (@length A)) in Hw.
    rewrite length_firstn, length_skipn in Hw. lia. }
  unfold py_slice, slice_bound.
  pose proof (len_nonneg t) as Ht.
  destruct (a <? 0) eqn:E1; [lia|].
  destruct (a + len t <? 0) eqn:E2; [lia|].
  unfold len in *.
  destruct (Z_le_gt_dec a (Z.of_nat (length l))) as [Hin|Hout].
  - replace (Z.to_nat (Z.min a (Z.of_nat (length l)))) with (Z.to_nat a) by lia.
    replace (Z.to_nat _) with (length t) by lia.
    exact Hw.
  - destruct t as [|x t]; [|cbn [length] in Hl; lia].
    replace (Z.to_nat _) with 0%nat by (cbn [length]; lia).
    reflexivity.
Qed.

(** ** The pattern matches markers, and only markers *)

(** A marker as it stands in the input: [{+t+}] or [[-t-]]. *)
Definition marker_text (added : bool) (t : str) : str :=
  if added then "{"%char :: "+"%char :: t ++ ["+"%char; "}"%char]
  else "["%char :: "-"%char :: t ++ ["-"%char; "]"%char].

Lemma lazy_until_sound c1 c2 s n :
  lazy_until c1 c2 s = Some n ->
  exists t rest, s = t ++ [c1; c2] ++ rest /\ n = (length t + 2)%nat
                 /\ ~ In newline t.
Proof.
  revert n; induction s as [|x s IH]; intros n; simpl; [discriminate|].
  destruct s as [|y s']; [discriminate|].
  destruct ((x =? c1)%char && (y =? c2)%char) eqn:E.
  - intros [= <-]. apply andb_true_iff in E as [E1 E2].
    apply Ascii.eqb_eq in E1, E2. subst.
    exists [], s'. split; [reflexivity|]. split; [reflexivity|]. intros [].
  - destruct (x =? newline)%char eqn:N; [discriminate|].
    destruct (lazy_until c1 c2 (y :: s')) as [k|] eqn:K; [|discriminate].
    intros [= <-]. destruct (IH k eq_refl) as (t & rest & -> & -> & Hn).
    exists (x :: t), rest. split; [reflexivity|]. split; [reflexivity|].
    intros [->|Hin]; [|tauto].
    rewrite Ascii.eqb_refl in N. discriminate.
Qed.

Lemma alternative_sound o1 o2 c1 c2 s n :
  alternative o1 o2 c1 c2 s = Some n ->
  exists t rest, s = (o1 :: o2 :: t ++ [c1; c2]) ++ rest
                 /\ n = (length t + 4)%nat /\ ~ In newline t.
Proof.
  destruct s as [|x [|y s']]; simpl; try discriminate.
  destruct ((x =? o1)%char && (y =? o2)%char) eqn:E; [|discriminate].
  apply andb_true_iff in E as [E1 E2]. apply Ascii.eqb_eq in E1, E2. subst.
  destruct (lazy_until c1 c2 s') as [k|] eqn:K; [|discriminate].
  intros [= <-]. apply lazy_until_sound in K as (t & rest & -> & -> & Hn).
  exists t, rest. split; [|split; [lia|exact Hn]].
  simpl. rewrite <- app_assoc. reflexivity.
Qed.

Lemma match_here_sound s n :
  match_here s = Some n ->
  exists added t rest, s = marker_text added t ++ rest
                       /\ n = (length t + 4)%nat /\ ~ In newline t.
Proof.
  unfold match_here.
  destruct (alternative "{" "+" "+" "}" s) as [k|] eqn:E.
  - intros [= <-]. apply alternative_sound in E as (t & rest & -> & -> & Hn).
    exists true, t, rest. auto.
  - intros E'. apply alternative_sound in E' as (t & rest & -> & -> & Hn).
    exists false, t, rest. auto.
Qed.

Lemma marker_text_length added t :
  length (marker_text added t) = (length t + 4)%nat.
Proof.
  destruct added; simpl; rewrite length_app; simpl; lia.
Qed.

(** The inner text of a match and the list it goes to, as the callback
    reads them off the match object. *)
Definition inner (m : Match) : str := py_slice (m_group m) 2 (-2).
Definition is_added (m : Match) : bool := is_char (py_index (m_group m) 1) "+".

Lemma inner_marker added t pos e :
  inner (mkMatch (marker_text added t) pos e) = t.
Proof. destruct added; apply py_slice_inner. Qed.

Lemma is_added_marker added t pos e :
  is_added (mkMatch (marker_text added t) pos e) = added.
Proof.
  unfold is_added, py_index. cbn [m_group].
  assert (Hl : 4 <= len (marker_text added t)).
  { unfold len. rewrite marker_text_length. lia. }
  destruct ((0 <=? 1) && (1 <? len (marker_text added t))) eqn:E.
  - destruct added; reflexivity.
  - apply andb_false_iff in E as [E|E]; lia.
Qed.

(** ** Unfolding the walk *)

Lemma re_sub_nil {St : Type} (repl : Match -> St -> str * St) pos st :
  re_sub repl pos [] st = ([], st).
Proof. now simp re_sub. Qed.

Lemma re_sub_match {St : Type} (repl : Match -> St -> str * St) pos s st n :
  match_here s = Some n ->
  re_sub repl pos s st =
    let r := repl (mkMatch (firstn n s) pos (pos + Z.of_nat n)) st in
    let rest := re_sub repl (pos + Z.of_nat n) (skipn n s) (snd r) in
    (fst r ++ fst rest, snd rest).
Proof.
  intros Hm. destruct s as [|c s']; [discriminate|].
  simp re_sub.
  destruct (inspect (match_here (c :: s'))) as [[k|] e]; simpl.
  - assert (k = n) by congruence. subst k. reflexivity.
  - congruence.
Qed.

Lemma re_sub_skip {St : Type} (repl : Match -> St -> str * St) pos c s' st :
  match_here (c :: s') = None ->
  re_sub repl pos (c :: s') st =
    let rest := re_sub repl (pos + 1) s' st in (c :: fst rest, snd rest).
Proof.
  intros Hm. simp re_sub.
  destruct (inspect (match_here (c :: s'))) as [[k|] e]; simpl.
  - congruence.
  - reflexivity.
Qed.

Lemma finditer_nil pos : finditer pos [] = [].
Proof. now simp finditer. Qed.

Lemma finditer_match pos s n :
  match_here s = Some n ->
  finditer pos s =
    mkMatch (firstn n s) pos (pos + Z.of_nat n)
      :: finditer (pos + Z.of_nat n) (skipn n s).
Proof.
  intros Hm. destruct s as [|c s']; [discriminate|].
  simp finditer.
  destruct (inspect (match_here (c :: s'))) as [[k|] e]; simpl.
  - assert (k = n) by congruence. subst k. reflexivity.
  - congruence.
Qed.

Lemma finditer_skip pos c s' :
  match_here (c :: s') = None -> finditer pos (c :: s') = finditer (pos + 1) s'.
Proof.
  intros Hm. simp finditer.
  destruct (inspect (match_here (c :: s'))) as [[k|] e]; simpl.
  - congruence.
  - reflexivity.
Qed.

(** Induction along the walk: the text is empty, or the pattern fails at
    its head and the walk moves one character on, or it matches [n]
    characters and the walk resumes after them. *)
Lemma walk_ind (P : Z -> str -> Prop) :
  (forall pos, P pos []) ->
  (forall pos c s', match_here (c :: s') = None ->
                    P (pos + 1) s' -> P pos (c :: s')) ->
  (forall pos s n, match_here s = Some n ->
                   P (pos + Z.of_nat n) (skipn n s) -> P pos s) ->
  forall pos s, P pos s.
Proof.
  intros Hnil Hskip Hmatch pos s.
  remember (length s) as k eqn:Hk.
  revert pos s Hk.
  induction k as [k IH] using lt_wf_ind. intros pos s ->.
  destruct s as [|c s']; [apply Hnil|].
  destruct (match_here (c :: s')) as [n|] eqn:E.
  - apply (Hmatch _ _ n E).
    apply (IH (length (skipn n (c :: s')))); [|reflexivity].
    apply match_here_bounds in E. rewrite length_skipn.
    cbn [length] in *. lia.
  - apply Hskip; [exact E|].
    apply (IH (length s')); [cbn [length]; lia | reflexivity].
Qed.

(** ** What [postprocess_word_diff] records *)

(** The region the callback should record for the match [m] when [k]
    markers were replaced before it. *)
Definition expected_region (global_offset k : Z) (m : Match) : Region :=
  let start := global_offset + m_start m - 4 * k in
  mkRegion start (start + len (inner m)).

(** The regions of the added ([added = true]) or of the removed markers
    among [ms], in the order of the matches, the first of which has [k]
    markers before it. *)
Fixpoint expected_regions (global_offset k : Z) (ms : list Match)
    (added : bool) : list Region :=
  match ms with
  | [] => []
  | m :: ms' =>
      (if Bool.eqb (is_added m) added
       then [expected_region global_offset k m] else [])
        ++ expected_regions global_offset (k + 1) ms' added
  end.

(** The text [s], which starts at offset [pos] of the input, with the span
    of every match of [ms] replaced by the inner text of the match. *)
Fixpoint replace_matches (pos : Z) (s : str) (ms : list Match) : str :=
  match ms with
  | [] => s
  | m :: ms' =>
      firstn (Z.to_nat (m_start m - pos)) s ++ inner m
        ++ replace_matches (m_end m) (skipn (Z.to_nat (m_end m - pos)) s) ms'
  end.

(** A match of the walk over [s] (which starts at offset [pos]): its span
    lies in the text, its group is the text under the span, and the group
    is a marker whose inner text has no newline. *)
Definition well_placed (pos : Z) (s : str) (m : Match) : Prop :=
  pos <= m_start m
  /\ m_end m = m_start m + len (m_group m)
  /\ m_end m <= pos + len s
  /\ m_group m = firstn (length (m_group m))
                        (skipn (Z.to_nat (m_start m - pos)) s)
  /\ m_group m = marker_text (is_added m) (inner m)
  /\ ~ In newline (inner m).

Lemma extractor_unfold base m A R :
  extractor base m (A, R) =
    (inner m,
     if is_added m
     then (A ++ [expected_region base (len A + len R) m], R)
     else (A, R ++ [expected_region base (len A + len R) m])).
Proof.
  unfold extractor, expected_region, inner, is_added.
  replace (base + m_start m - (len A + len R) * 4)
    with (base + m_start m - 4 * (len A + len R)) by lia.
  destruct (is_char (py_index (m_group m) 1) "+"); reflexivity.
Qed.

Lemma firstn_match s n :
  match_here s = Some n ->
  exists added t, firstn n s = marker_text added t
                  /\ n = (length t + 4)%nat /\ ~ In newline t.
Proof.
  intros E. apply match_here_sound in E as (added & t & rest & -> & -> & Hn).
  exists added, t. split; [|split; [reflexivity|exact Hn]].
  rewrite <- (marker_text_length added t), <- (Nat.add_0_r (length _)).
  rewrite firstn_app_2. cbn [firstn]. apply app_nil_r.
Qed.

Lemma inner_match_length s n pos e :
  match_here s = Some n ->
  len (inner (mkMatch (firstn n s) pos e)) = Z.of_nat n - 4.
Proof.
  intros E. apply firstn_match in E as (added & t & -> & -> & _).
  rewrite inner_marker. unfold len. lia.
Qed.

Lemma re_sub_regions base pos s :
  forall A R,
    snd (re_sub (extractor base) pos s (A, R)) =
      (A ++ expected_regions base (len A + len R) (finditer pos s) true,
       R ++ expected_regions base (len A + len R) (finditer pos s) false).
Proof.
  revert pos s. apply (walk_ind (fun pos s => forall A R, _ = _)).
  - intros pos A R. rewrite re_sub_nil, finditer_nil. cbn.
    rewrite !app_nil_r. reflexivity.
  - intros pos c s' E IH A R.
    rewrite (re_sub_skip _ _ _ _ _ E), (finditer_skip _ _ _ E).
    cbv zeta. cbn [snd]. apply IH.
  - intros pos s n E IH A R.
    rewrite (re_sub_match _ _ _ _ _ E), (finditer_match _ _ _ E).
    cbv zeta. cbn [snd expected_regions]. rewrite extractor_unfold.
    destruct (is_added _) eqn:Ea; cbn [snd fst Bool.eqb]; rewrite IH.
    + rewrite len_app. change (len [_]) with 1.
      replace (len A + 1 + len R) with (len A + len R + 1) by lia.
      rewrite <- app_assoc. reflexivity.
    + rewrite len_app. change (len [_]) with 1.
      replace (len A + (len R + 1)) with (len A + len R + 1) by lia.
      rewrite <- app_assoc. reflexivity.
Qed.

Lemma expected_regions_length base k ms :
  len (expected_regions base k ms true) + len (expected_regions base k ms false)
  = len ms.
Proof.
  revert k; induction ms as [|m ms IH]; intros k; [reflexivity|].
  cbn [expected_regions]. rewrite !len_app, len_cons.
  specialize (IH (k + 1)).
  destruct (is_added m); cbn [Bool.eqb]; unfold len in *; cbn [length]; lia.
Qed.

Lemma well_placed_shift (d : nat) pos s m :
  (d <= length s)%nat ->
  well_placed (pos + Z.of_nat d) (skipn d s) m -> well_placed pos s m.
Proof.
  intros Hd (H1 & H2 & H3 & H4 & H5 & H6).
  unfold well_placed. repeat (split; try assumption); try lia.
  - unfold len in *. rewrite length_skipn in H3. lia.
  - rewrite skipn_skipn in H4.
    replace (Z.to_nat (m_start m - pos))
      with (Z.to_nat (m_start m - (pos + Z.of_nat d)) + d)%nat by lia.
    exact H4.
Qed.

Lemma finditer_placed pos s : Forall (well_placed pos s) (finditer pos s).
Proof.
  revert pos s. apply walk_ind.
  - intros pos. rewrite finditer_nil. constructor.
  - intros pos c s' E IH. rewrite (finditer_skip _ _ _ E).
    eapply Forall_impl; [|exact IH].
    intros m Hm. apply (well_placed_shift 1); [cbn [length]; lia|exact Hm].
  - intros pos s n E IH. rewrite (finditer_match _ _ _ E).
    pose proof (match_here_bounds _ _ E) as Hb.
    constructor.
    + destruct (firstn_match _ _ E) as (added & t & Hg & Hn & Hnl).
      unfold well_placed. cbn [m_start m_end m_group].
      assert (Hlen : length (firstn n s) = n) by (rewrite length_firstn; lia).
      unfold len. rewrite Hlen.
      repeat split; try lia.
      * rewrite Z.sub_diag. reflexivity.
      * rewrite Hg, is_added_marker, inner_marker. reflexivity.
      * rewrite Hg, inner_marker. exact Hnl.
    + eapply Forall_impl; [|exact IH].
      intros m Hm. apply (well_placed_shift n); [lia|exact Hm].
Qed.

Lemma replace_matches_skip pos c s' ms :
  Forall (well_placed (pos + 1) s') ms ->
  replace_matches pos (c :: s') ms = c :: replace_matches (pos + 1) s' ms.
Proof.
  destruct ms as [|m ms']; [reflexivity|].
  intros Hp. apply Forall_inv in Hp. destruct Hp as (H1 & H2 & _).
  pose proof (len_nonneg (m_group m)) as Hg.
  cbn [replace_matches].
  replace (Z.to_nat (m_start m - pos))
    with (S (Z.to_nat (m_start m - (pos + 1)))) by lia.
  replace (Z.to_nat (m_end m - pos))
    with (S (Z.to_nat (m_end m - (pos + 1)))) by lia.
  reflexivity.
Qed.

Lemma re_sub_text base pos s :
  forall st,
    fst (re_sub (extractor base) pos s st)
    = replace_matches pos s (finditer pos s).
Proof.
  revert pos s. apply (walk_ind (fun pos s => forall st, _ = _)).
  - intros pos st. rewrite re_sub_nil, finditer_nil. reflexivity.
  - intros pos c s' E IH st.
    rewrite (re_sub_skip _ _ _ _ _ E), (finditer_skip _ _ _ E).
    cbv zeta. cbn [fst]. rewrite IH.
    symmetry. apply replace_matches_skip, finditer_placed.
  - intros pos s n E IH [A R].
    rewrite (re_sub_match _ _ _ _ _ E), (finditer_match _ _ _ E).
    cbv zeta. cbn [fst replace_matches m_start m_end].
    rewrite extractor_unfold. cbn [fst]. rewrite IH.
    rewrite Z.sub_diag.
    replace (Z.to_nat (pos + Z.of_nat n - pos)) with n by lia.
    reflexivity.
Qed.

Lemma re_sub_length base pos s :
  forall st,
    len (fst (re_sub (extractor base) pos s st))
    = len s - 4 * len (finditer pos s).
Proof.
  revert pos s. apply (walk_ind (fun pos s => forall st, _ = _)).
  - intros pos st. rewrite re_sub_nil, finditer_nil. reflexivity.
  - intros pos c s' E IH st.
    rewrite (re_sub_skip _ _ _ _ _ E), (finditer_skip _ _ _ E).
    cbv zeta. cbn [fst]. rewrite !len_cons, IH. lia.
  - intros pos s n E IH [A R].
    rewrite (re_sub_match _ _ _ _ _ E), (finditer_match _ _ _ E).
    cbv zeta. cbn [fst]. rewrite extractor_unfold. cbn [fst].
    rewrite len_app, len_cons, IH, (inner_match_length _ _ _ _ E).
    pose proof (match_here_bounds _ _ E) as Hb.
    unfold len. rewrite length_skipn. lia.
Qed.

(** In the output of the walk over [s], the inner text of the [k]-th match
    stands [4 * k] characters to the left of where the match starts. *)
Lemma re_sub_window base pos s :
  forall st k m,
    nth_error (finditer pos s) k = Some m ->
    0 <= m_start m - pos - 4 * Z.of_nat k
    /\ firstn (length (inner m))
         (skipn (Z.to_nat (m_start m - pos - 4 * Z.of_nat k))
                (fst (re_sub (extractor base) pos s st)))
       = inner m.
Proof.
  revert pos s.
  apply (walk_ind (fun pos s => forall st k m, _ -> _ /\ _)).
  - intros pos st k m. rewrite finditer_nil. destruct k; discriminate.
  - intros pos c s' E IH st k m.
    rewrite (re_sub_skip _ _ _ _ _ E), (finditer_skip _ _ _ E).
    intros Hk. destruct (IH st k m Hk) as [H0 Hw].
    split; [lia|]. cbv zeta. cbn [fst].
    replace (Z.to_nat (m_start m - pos - 4 * Z.of_nat k))
      with (S (Z.to_nat (m_start m - (pos + 1) - 4 * Z.of_nat k))) by lia.
    exact Hw.
  - intros pos s n E IH [A R] k m.
    rewrite (re_sub_match _ _ _ _ _ E), (finditer_match _ _ _ E).
    cbv zeta. cbn [fst]. rewrite extractor_unfold. cbn [fst snd].
    pose proof (match_here_bounds _ _ E) as Hb.
    pose proof (inner_match_length s n pos (pos + Z.of_nat n) E) as Hi.
    destruct k as [|k]; cbn [nth_error].
    + intros [= <-]. cbn [m_start]. split; [lia|].
      replace (Z.to_nat (pos - pos - 4 * Z.of_nat 0)) with 0%nat by lia.
      cbn [skipn]. rewrite <- (Nat.add_0_r (length _)), firstn_app_2.
      cbn [firstn]. apply app_nil_r.
    + intros Hk.
      match goal with
      | |- context [re_sub _ _ _ ?st'] => destruct (IH st' k m Hk) as [H0 Hw]
      end.
      split; [lia|].
      rewrite skipn_app.
      unfold len in Hi.
      rewrite skipn_all2 by lia. cbn [app].
      match goal with
      | |- firstn _ (skipn ?a _) = _ =>
          replace a with (Z.to_nat (m_start m - (pos + Z.of_nat n)
                                    - 4 * Z.of_nat k)) by lia
      end.
      exact Hw.
Qed.

(** Later regions start no further left than earlier ones. *)
Definition starts_le (r1 r2 : Region) : Prop := reg_a r1 <= reg_a r2.

Lemma expected_regions_sorted base added pos s :
  forall k,
    Forall (fun r => base + pos - 4 * k <= reg_a r)
           (expected_regions base k (finditer pos s) added)
    /\ StronglySorted starts_le
         (expected_regions base k (finditer pos s) added).
Proof.
  revert pos s. apply (walk_ind (fun pos s => forall k, _ /\ _)).
  - intros pos k. rewrite finditer_nil. split; constructor.
  - intros pos c s' E IH k. rewrite (finditer_skip _ _ _ E).
    destruct (IH k) as [Hlo Hs]. split; [|exact Hs].
    eapply Forall_impl; [|exact Hlo]. cbn beta. intros r. lia.
  - intros pos s n E IH k. rewrite (finditer_match _ _ _ E).
    pose proof (match_here_bounds _ _ E) as Hb.
    destruct (IH (k + 1)) as [Hlo Hs].
    assert (Hlo' : Forall (fun r => base + pos - 4 * k <= reg_a r)
      (expected_regions base (k + 1)
         (finditer (pos + Z.of_nat n) (skipn n s)) added)).
    { eapply Forall_impl; [|exact Hlo]. cbn beta. intros r. lia. }
    cbn [expected_regions].
    destruct (Bool.eqb _ added); cbn [app].
    + split.
      * constructor; [cbn; lia|exact Hlo'].
      * constructor; [exact Hs|].
        eapply Forall_impl; [|exact Hlo'].
        intros r. unfold starts_le. cbn. lia.
    + split; assumption.
Qed.

Lemma re_sub_no_match {St : Type} (repl : Match -> St -> str * St) s :
  (forall i, match_here (skipn i s) = None) ->
  forall pos st, re_sub repl pos s st = (s, st).
Proof.
  induction s as [|c s' IH]; intros Hno pos st.
  - apply re_sub_nil.
  - rewrite (re_sub_skip _ _ _ _ _ (Hno 0%nat)). cbv zeta.
    rewrite IH; [reflexivity|].
    intros i. exact (Hno (S i)).
Qed.

Lemma postprocess_word_diff_unfold text base :
  postprocess_word_diff text base =
    (replace_matches 0 text (finditer 0 text),
     expected_regions base 0 (finditer 0 text) true,
     expected_regions base 0 (finditer 0 text) false).
Proof.
  unfold postprocess_word_diff. cbv zeta.
  rewrite re_sub_text, re_sub_regions. reflexivity.
Qed.

(** C1, as amended: on ["{+a+}bc[-d-]e"] with base offset 0 the plain text
    is ["abcde"] (the inner text of the removed marker stays in the
    output), the added regions are exactly [[0,1)] and the removed regions
    exactly [[3,4)]. *)
Theorem postprocess_word_diff_example :
  postprocess_word_diff (lit "{+a+}bc[-d-]e") 0
  = (lit "abcde", [mkRegion 0 1], [mkRegion 3 4]).
Proof. vm_compute. reflexivity. Qed.

(** C1, as stated, fails: the plain text is not ["abce"]. *)
Lemma postprocess_word_diff_example_not_abce :
  postprocess_word_diff (lit "{+a+}bc[-d-]e") 0
  <> (lit "abce", [mkRegion 0 1], [mkRegion 3 4]).
Proof. intros H. vm_compute in H. discriminate H. Qed.

(** C2: for every text and base offset, with [ms] the matches of the marker
    pattern in the text: every match is a marker [{+t+}] or [[-t-]] lying
    in the text; the output is the text with every match replaced by its
    inner text [t]; the [k]-th match, starting at input offset [s], is
    recorded as [[base + s - 4k, base + s - 4k + len t)], in the added list
    for [{+t+}] and in the removed list for [[-t-]]; for base offset 0 the
    output under that region is [t]; and the output is 4 characters shorter
    than the input per recorded region. *)
Theorem postprocess_word_diff_offsets (text : str) (base : Z) :
  let ms := finditer 0 text in
  Forall (well_placed 0 text) ms
  /\ postprocess_word_diff text base =
       (replace_matches 0 text ms,
        expected_regions base 0 ms true,
        expected_regions base 0 ms false)
  /\ (forall k m,
        nth_error ms k = Some m ->
        let r := expected_region 0 (Z.of_nat k) m in
        py_slice (fst (fst (postprocess_word_diff text 0))) (reg_a r) (reg_b r)
        = inner m)
  /\ len (fst (fst (postprocess_word_diff text base)))
     = len text
       - 4 * (len (snd (fst (postprocess_word_diff text base)))
              + len (snd (postprocess_word_diff text base))).
Proof.
  cbv zeta. split; [apply finditer_placed|].
  split; [apply postprocess_word_diff_unfold|].
  split.
  - intros k m Hk. unfold postprocess_word_diff. cbv zeta. cbn [fst].
    destruct (re_sub_window 0 0 text ([], []) k m Hk) as [H0 Hw].
    unfold expected_region. cbn [reg_a reg_b].
    replace (0 + m_start m - 4 * Z.of_nat k)
      with (m_start m - 0 - 4 * Z.of_nat k) by lia.
    apply py_slice_window; assumption.
  - rewrite postprocess_word_diff_unfold. cbn [fst snd].
    rewrite expected_regions_length, <- (re_sub_text base 0 text ([], [])).
    apply re_sub_length.
Qed.

Lemma postprocess_word_diff_offsets_witness :
  py_slice (fst (fst (postprocess_word_diff (lit "{+a+}bc[-d-]e") 0))) 3 4
  = lit "d".
Proof.
  exact (proj1 (proj2 (proj2
           (postprocess_word_diff_offsets (lit "{+a+}bc[-d-]e") 0)))
         1%nat (mkMatch (lit "[-d-]") 7 12) eq_refl).
Defined.

(** C8: for every text and base offset, in the added list and in the
    removed list every region starts no further left than the regions
    appended after it. *)
Theorem postprocess_word_diff_ordered (text : str) (base : Z) :
  StronglySorted starts_le (snd (fst (postprocess_word_diff text base)))
  /\ StronglySorted starts_le (snd (postprocess_word_diff text base)).
Proof.
  rewrite postprocess_word_diff_unfold. cbn [fst snd].
  split; apply expected_regions_sorted.
Qed.

(** C9: a text in which no marker [{+t+}] or [[-t-]] occurs comes back
    unchanged, with two empty region lists, whatever the base offset. *)
Theorem postprocess_word_diff_no_markers (text : str) (base : Z) :
  (forall pre added t post,
      ~ In newline t -> text <> pre ++ marker_text added t ++ post) ->
  postprocess_word_diff text base = (text, [], []).
Proof.
  intros Hno. unfold postprocess_word_diff. cbv zeta.
  rewrite re_sub_no_match; [reflexivity|].
  intros i. destruct (match_here (skipn i text)) as [n|] eqn:E; [|reflexivity].
  exfalso.
  apply match_here_sound in E as (added & t & rest & Hs & _ & Hn).
  apply (Hno (firstn i text) added t rest Hn).
  rewrite <- Hs. symmetry. apply firstn_skipn.
Qed.

Lemma postprocess_word_diff_no_markers_witness :
  postprocess_word_diff (lit "abc") 5 = (lit "abc", [], []).
Proof.
  apply postprocess_word_diff_no_markers.
  intros pre added t post _ H.
  apply (f_equal (@length ascii)) in H.
  rewrite !length_app, marker_text_length in H.
  simpl in H. lia.
Defined.

(** ** Rows and columns in a hunk *)

Lemma py_index_nonneg {A : Type} (l : list A) (i : Z) (x : A) :
  0 <= i -> nth_error l (Z.to_nat i) = Some x -> py_index l i = Some x.
Proof.
  intros Hi Hx. unfold py_index.
  assert (Hlt : (Z.to_nat i < length l)%nat).
  { apply nth_error_Some. congruence. }
  destruct ((0 <=? i) && (i <? len l)) eqn:E; [exact Hx|].
  unfold len in E. apply andb_false_iff in E as [E|E]; lia.
Qed.

Lemma py_index_in_range {A : Type} (l : list A) (i : Z) :
  0 <= i < len l -> exists x, py_index l i = Some x /\ In x l.
Proof.
  intros Hi. unfold len in Hi.
  destruct (nth_error l (Z.to_nat i)) as [x|] eqn:E.
  - exists x. split; [apply py_index_nonneg; [lia|exact E]|].
    eapply nth_error_In; eauto.
  - apply nth_error_None in E. lia.
Qed.

Lemma py_slice_from_nonneg {A : Type} (l : list A) (i : Z) :
  0 <= i <= len l -> py_slice_from l i = skipn (Z.to_nat i) l.
Proof.
  intros Hi. unfold py_slice_from, slice_bound.
  destruct (i <? 0) eqn:E; [lia|].
  rewrite Z.min_l by lia. reflexivity.
Qed.

Section RowColFacts.

Context {L : Type} `{HunkLineOps L}.
Variable line_indentation : str -> Z.

(** A line that is no deletion and has non-blank content. *)
Definition has_content (l : L) : bool :=
  negb (is_from_line l) && truthy (strip (content l)).

Lemma recount_lines_lines (ls : list L) (b : Z) :
  map hl_line (_recount_lines ls b) = ls.
Proof.
  revert b; induction ls as [|l ls IH]; intros b; [reflexivity|].
  cbn [_recount_lines map hl_line]. rewrite IH. reflexivity.
Qed.

Lemma recount_lines_length (ls : list L) (b : Z) :
  length (_recount_lines ls b) = length ls.
Proof.
  rewrite <- (recount_lines_lines ls b) at 2. symmetry. apply length_map.
Qed.

(** The b-numbers never fall below the start of the hunk. *)
Lemma recount_lines_from (ls : list L) (b : Z) :
  Forall (fun hl => b <= hl_b hl) (_recount_lines ls b).
Proof.
  revert b; induction ls as [|l ls IH]; intros b; [constructor|].
  cbn [_recount_lines]. constructor; [cbn; lia|].
  eapply Forall_impl; [|apply IH].
  cbn beta. intros hl. destruct (negb (is_from_line l)); lia.
Qed.

Lemma first_with_content_spec (hls : list (HunkLineWithB L)) (index : Z) :
  match first_with_content index hls with
  | Some i =>
      exists k hl,
        i = index + Z.of_nat k
        /\ nth_error hls k = Some hl
        /\ has_content (hl_line hl) = true
        /\ forall j hl', (j < k)%nat -> nth_error hls j = Some hl' ->
                         has_content (hl_line hl') = false
  | None => Forall (fun hl => has_content (hl_line hl) = false) hls
  end.
Proof.
  revert index; induction hls as [|hl hls IH]; intros index.
  - constructor.
  - cbn [first_with_content]. fold (has_content (hl_line hl)).
    destruct (has_content (hl_line hl)) eqn:E.
    + exists 0%nat, hl. split; [lia|]. split; [reflexivity|].
      split; [exact E|]. intros j hl' Hj. lia.
    + specialize (IH (index + 1)).
      destruct (first_with_content (index + 1) hls) as [i|].
      * destruct IH as (k & hl0 & -> & Hk & Hc & Hbefore).
        exists (S k), hl0. split; [lia|]. split; [exact Hk|].
        split; [exact Hc|].
        intros [|j] hl' Hj; cbn [nth_error].
        -- intros [= <-]. exact E.
        -- apply Hbefore. lia.
      * constructor; assumption.
Qed.

Lemma next_available_first_context line b col pre ctx post :
  Forall (fun x => is_to_line (hl_line x) = false
                   /\ is_context (hl_line x) = false) pre ->
  is_to_line (hl_line ctx) = false ->
  is_context (hl_line ctx) = true ->
  next_available line_indentation line b col (pre ++ ctx :: post)
  = if line_indentation (content (hl_line ctx))
       =? line_indentation (content line)
    then (hl_b ctx, line_indentation (content (hl_line ctx)) + 1)
    else (Z.max 1 (b - 1), 1).
Proof.
  intros Hpre Hto Hctx. induction Hpre as [|x pre [Hx1 Hx2] _ IH].
  - cbn [app next_available]. rewrite Hto, Hctx. reflexivity.
  - cbn [app next_available]. rewrite Hx1, Hx2. exact IH.
Qed.

Lemma next_available_one_based line b col following :
  (forall s, 0 <= line_indentation s) ->
  1 <= b -> 1 <= col ->
  Forall (fun hl => 1 <= hl_b hl) following ->
  1 <= fst (next_available line_indentation line b col following)
  /\ 1 <= snd (next_available line_indentation line b col following).
Proof.
  intros Hli Hb Hcol Hf. induction Hf as [|hl rest Hhl _ IH].
  - cbn. lia.
  - cbn [next_available].
    destruct (is_to_line (hl_line hl)).
    + cbn [fst snd]. pose proof (len_nonneg (content (hl_line hl))). lia.
    + destruct (is_context (hl_line hl)); [|exact IH].
      pose proof (Hli (content (hl_line hl))).
      destruct (_ =? _); cbn [fst snd]; lia.
Qed.

Lemma real_rowcol_in_hunk_lines hunk hunk_lines r c :
  counted_lines hunk = Some hunk_lines ->
  hunk_lines <> [] ->
  real_rowcol_in_hunk line_indentation hunk (r, c) =
    let '(row_in_hunk, col) :=
      if r =? 0
      then (match first_with_content 1 hunk_lines with
            | Some index => index
            | None => 1
            end, 1)
      else (r, c) in
    match py_index hunk_lines (row_in_hunk - 1) with
    | None => IndexError
    | Some hl =>
        if negb (is_from_line (hl_line hl))
        then Returns (Some (hl_b hl, col))
        else Returns (Some (next_available line_indentation (hl_line hl)
                              (hl_b hl) col
                              (py_slice_from hunk_lines row_in_hunk)))
    end.
Proof.
  intros Hcl Hne. unfold real_rowcol_in_hunk. rewrite Hcl.
  destruct hunk_lines; [contradiction|reflexivity].
Qed.

(** Within the rows of the hunk the function finds a counted line, and
    answers from it or from the lines after it. *)
Lemma real_rowcol_in_hunk_shape hunk r c b0 :
  from_line_start hunk = Some b0 ->
  lines hunk <> [] ->
  0 <= r <= len (lines hunk) ->
  exists hl col rest,
    In hl (_recount_lines (lines hunk) b0)
    /\ (1 <= c -> 1 <= col)
    /\ Forall (fun x => b0 <= hl_b x) rest
    /\ real_rowcol_in_hunk line_indentation hunk (r, c)
       = if negb (is_from_line (hl_line hl))
         then Returns (Some (hl_b hl, col))
         else Returns (Some (next_available line_indentation
                               (hl_line hl) (hl_b hl) col rest)).
Proof.
  intros Hb0 Hne Hr.
  pose proof (recount_lines_length (lines hunk) b0) as Hlen.
  pose proof (recount_lines_from (lines hunk) b0) as Hfrom.
  assert (Hcl : counted_lines hunk = Some (_recount_lines (lines hunk) b0))
    by (unfold counted_lines; rewrite Hb0; reflexivity).
  rewrite (real_rowcol_in_hunk_lines _ _ _ _ Hcl).
  2: { intros E. rewrite E in Hlen. destruct (lines hunk);
       [contradiction|discriminate]. }
  set (hls := _recount_lines (lines hunk) b0) in *.
  assert (Hrow : exists row col,
    (if r =? 0
     then (match first_with_content 1 hls with
           | Some index => index
           | None => 1
           end, 1)
     else (r, c)) = (row, col)
    /\ 1 <= row <= len hls /\ (1 <= c -> 1 <= col)).
  { destruct (r =? 0) eqn:Er.
    - pose proof (first_with_content_spec hls 1) as Hspec.
      destruct (first_with_content 1 hls) as [i|].
      + destruct Hspec as (k & hl & -> & Hk & _).
        exists (1 + Z.of_nat k), 1. split; [reflexivity|].
        assert (k < length hls)%nat by (apply nth_error_Some; congruence).
        unfold len. lia.
      + exists 1, 1. split; [reflexivity|].
        unfold len in *. destruct (lines hunk); [contradiction|].
        cbn [length] in *. lia.
    - exists r, c. split; [reflexivity|].
      apply Z.eqb_neq in Er. unfold len in *. lia. }
  destruct Hrow as (row & col & -> & Hrow & Hcol).
  destruct (py_index_in_range hls (row - 1) ltac:(lia)) as (hl & Hi & Hin).
  exists hl, col, (py_slice_from hls row).
  split; [exact Hin|]. split; [exact Hcol|]. split.
  - rewrite py_slice_from_nonneg by lia.
    rewrite <- (firstn_skipn (Z.to_nat row) hls) in Hfrom.
    apply Forall_app in Hfrom. apply Hfrom.
  - rewrite Hi. reflexivity.
Qed.

End RowColFacts.

(** C3: in the hunk with content lines ["-foo"], ["+bar"] and destination
    start line 10, relative row 1 (the deletion) with a column [c >= 1]
    maps to destination row 10 and column [min(c, len("bar") + 1)], which
    is [min(c, 4)]. *)
Theorem real_rowcol_deletion_then_addition
    (line_indentation : str -> Z) (c : Z) :
  1 <= c ->
  real_rowcol_in_hunk line_indentation
    (mkHunk (Some 10) [mkTextLine (lit "-foo"); mkTextLine (lit "+bar")])
    (1, c)
  = Returns (Some (10, Z.min c (len (lit "bar") + 1)))
  /\ len (lit "bar") + 1 = 4.
Proof.
  intros _. split; reflexivity.
Qed.

Lemma real_rowcol_deletion_then_addition_witness :
  real_rowcol_in_hunk (fun _ => 0)
    (mkHunk (Some 10) [mkTextLine (lit "-foo"); mkTextLine (lit "+bar")])
    (1, 7)
  = Returns (Some (10, Z.min 7 (len (lit "bar") + 1)))
  /\ len (lit "bar") + 1 = 4.
Proof.
  apply real_rowcol_deletion_then_addition. lia.
Defined.

Section RowColClaims.

Context {L : Type} `{HunkLineOps L}.
Variable line_indentation : str -> Z.

(** C4: with a parseable destination start, relative row 0 (the header
    line) is treated as the 1-based index of the first content line that
    is no deletion and has non-blank content, or as row 1 when there is no
    such line, and the column becomes 1.  In particular, when the first
    content line is a deletion, the second is blank and the third is no
    deletion and not blank, the result is the third line's b-number at
    column 1. *)
Theorem real_rowcol_on_header (hunk : Hunk L) (c b0 : Z) :
  from_line_start hunk = Some b0 ->
  (exists index,
      1 <= index
      /\ real_rowcol_in_hunk line_indentation hunk (0, c)
         = real_rowcol_in_hunk line_indentation hunk (index, 1)
      /\ ((exists l,
              nth_error (lines hunk) (Z.to_nat (index - 1)) = Some l
              /\ has_content l = true
              /\ forall j l', (j < Z.to_nat (index - 1))%nat ->
                              nth_error (lines hunk) j = Some l' ->
                              has_content l' = false)
          \/ (index = 1
              /\ Forall (fun l => has_content l = false) (lines hunk))))
  /\ (forall l1 l2 l3 rest,
         lines hunk = l1 :: l2 :: l3 :: rest ->
         is_from_line l1 = true ->
         strip (content l2) = [] ->
         is_from_line l3 = false ->
         strip (content l3) <> [] ->
         real_rowcol_in_hunk line_indentation hunk (0, c)
         = Returns (Some (b0 + (if is_from_line l2 then 0 else 1), 1))).
Proof.
  intros Hb0. split.
  - unfold real_rowcol_in_hunk, counted_lines. rewrite Hb0.
    destruct (_recount_lines (lines hunk) b0) as [|hl0 hls] eqn:Ecl.
    { exists 1. split; [lia|]. split; [reflexivity|]. right.
      split; [reflexivity|].
      apply (f_equal (map hl_line)) in Ecl.
      rewrite recount_lines_lines in Ecl. rewrite Ecl. constructor. }
    rewrite <- Ecl. change (0 =? 0) with true. cbv iota.
    pose proof (first_with_content_spec (_recount_lines (lines hunk) b0) 1)
      as Hspec.
    destruct (first_with_content 1 (_recount_lines (lines hunk) b0))
      as [i|].
    + destruct Hspec as (k & hl & -> & Hk & Hc & Hbefore).
      exists (1 + Z.of_nat k). split; [lia|].
      replace (1 + Z.of_nat k =? 0) with false
        by (symmetry; apply Z.eqb_neq; lia).
      split; [reflexivity|]. left.
      replace (Z.to_nat (1 + Z.of_nat k - 1)) with k by lia.
      exists (hl_line hl). split.
      * rewrite <- (recount_lines_lines (lines hunk) b0).
        rewrite nth_error_map, Hk. reflexivity.
      * split; [exact Hc|].
        intros j l' Hj Hl'.
        rewrite <- (recount_lines_lines (lines hunk) b0) in Hl'.
        rewrite nth_error_map in Hl'.
        destruct (nth_error (_recount_lines (lines hunk) b0) j)
          as [hl'|] eqn:Ej; [|discriminate].
        injection Hl' as <-. exact (Hbefore j hl' Hj Ej).
    + exists 1. split; [lia|]. split; [reflexivity|]. right.
      split; [reflexivity|].
      rewrite <- (recount_lines_lines (lines hunk) b0).
      apply Forall_map. exact Hspec.
  - intros l1 l2 l3 rest Hl H1 H2 H3 H4.
    unfold real_rowcol_in_hunk, counted_lines. rewrite Hb0, Hl.
    cbn [_recount_lines]. change (0 =? 0) with true. cbv iota.
    cbn [first_with_content hl_line]. rewrite H1, H2, H3.
    cbn [negb andb truthy].
    destruct (strip (content l3)) as [|x t] eqn:E3; [contradiction|].
    cbn [truthy]. rewrite andb_false_r.
    change (1 + 1 + 1 - 1) with (Z.of_nat 2).
    erewrite py_index_nonneg; [|lia|reflexivity].
    cbn [hl_line hl_b]. rewrite H3. cbn [negb].
    destruct (is_from_line l2); cbn [negb]; repeat f_equal; lia.
Qed.

(** C5: the cursor is on a deletion line (row [r >= 1], b-number [b]).
    When the lines after it hold a context line with no addition and no
    context line before it, the result is that context line's b-number at
    column (its indentation + 1) if its indentation equals the deleted
    line's, and [max(1, b - 1)] at column 1 otherwise.  When no line
    follows the deletion, the result is [b] at column 1. *)
Theorem real_rowcol_on_deletion
    (hunk : Hunk L) (r c : Z) (hunk_lines : list (HunkLineWithB L))
    (hl : HunkLineWithB L) :
  counted_lines hunk = Some hunk_lines ->
  1 <= r ->
  nth_error hunk_lines (Z.to_nat (r - 1)) = Some hl ->
  is_from_line (hl_line hl) = true ->
  (forall pre ctx post,
      skipn (Z.to_nat r) hunk_lines = pre ++ ctx :: post ->
      Forall (fun x => is_to_line (hl_line x) = false
                       /\ is_context (hl_line x) = false) pre ->
      is_to_line (hl_line ctx) = false ->
      is_context (hl_line ctx) = true ->
      real_rowcol_in_hunk line_indentation hunk (r, c)
      = Returns (Some
          (if line_indentation (content (hl_line ctx))
              =? line_indentation (content (hl_line hl))
           then (hl_b ctx, line_indentation (content (hl_line ctx)) + 1)
           else (Z.max 1 (hl_b hl - 1), 1))))
  /\ (skipn (Z.to_nat r) hunk_lines = [] ->
      real_rowcol_in_hunk line_indentation hunk (r, c)
      = Returns (Some (hl_b hl, 1))).
Proof.
  intros Hcl Hr Hnth Hfrom.
  assert (Hlen : r <= len hunk_lines).
  { assert (Z.to_nat (r - 1) < length hunk_lines)%nat
      by (apply nth_error_Some; congruence).
    unfold len. lia. }
  assert (Hshape :
    real_rowcol_in_hunk line_indentation hunk (r, c)
    = Returns (Some (next_available line_indentation (hl_line hl) (hl_b hl)
                       c (skipn (Z.to_nat r) hunk_lines)))).
  { rewrite (real_rowcol_in_hunk_lines line_indentation _ _ _ _ Hcl).
    2: { intros ->. destruct (Z.to_nat (r - 1)); discriminate. }
    replace (r =? 0) with false by (symmetry; apply Z.eqb_neq; lia).
    rewrite (py_index_nonneg hunk_lines (r - 1) hl ltac:(lia) Hnth).
    rewrite Hfrom. cbn [negb].
    rewrite py_slice_from_nonneg by lia. reflexivity. }
  split.
  - intros pre ctx post Hrest Hpre Hto Hctx.
    rewrite Hshape, Hrest.
    rewrite next_available_first_context by assumption.
    reflexivity.
  - intros Hrest. rewrite Hshape, Hrest. reflexivity.
Qed.

(** C6, as amended: the result is none exactly when the header has no
    parseable destination start or the hunk has no content lines; for a
    relative row from 0 to the number of content lines no index is out of
    range; and when moreover the destination start is at least 1, the
    column is at least 1 and indentations are not negative, the result is
    a location whose row and column are both at least 1. *)
Theorem real_rowcol_in_hunk_total (hunk : Hunk L) (r c : Z) :
  (real_rowcol_in_hunk line_indentation hunk (r, c) = Returns None
   <-> from_line_start hunk = None \/ lines hunk = [])
  /\ (0 <= r <= len (lines hunk) ->
      real_rowcol_in_hunk line_indentation hunk (r, c) <> IndexError)
  /\ (forall b0,
         from_line_start hunk = Some b0 ->
         lines hunk <> [] ->
         0 <= r <= len (lines hunk) ->
         1 <= b0 ->
         1 <= c ->
         (forall s, 0 <= line_indentation s) ->
         exists row col,
           real_rowcol_in_hunk line_indentation hunk (r, c)
           = Returns (Some (row, col))
           /\ 1 <= row /\ 1 <= col).
Proof.
  destruct hunk as [[b0|] ls]; cbn [from_line_start lines].
  2: { split; [|split].
       - split; [left|]; reflexivity.
       - discriminate.
       - discriminate. }
  destruct ls as [|l ls].
  { split; [|split].
    - split; [right|]; reflexivity.
    - discriminate.
    - intros ? _ Hne. contradiction. }
  assert (Hne : l :: ls <> []) by discriminate.
  split; [|split].
  - split.
    + unfold real_rowcol_in_hunk, counted_lines.
      cbn [from_line_start lines _recount_lines]. cbv zeta.
      destruct (if r =? 0 then _ else _) as [row col].
      destruct (py_index _ _); [|discriminate].
      destruct (negb _); discriminate.
    + intros [?|?]; discriminate.
  - intros Hr.
    destruct (real_rowcol_in_hunk_shape line_indentation
                (mkHunk (Some b0) (l :: ls)) r c b0 eq_refl Hne Hr)
      as (hl & col & rest & _ & _ & _ & ->).
    destruct (negb _); discriminate.
  - intros b0' [= <-] _ Hr Hb Hc Hli.
    destruct (real_rowcol_in_hunk_shape line_indentation
                (mkHunk (Some b0) (l :: ls)) r c b0 eq_refl Hne Hr)
      as (hl & col & rest & Hin & Hcol & Hrest & ->).
    cbn [lines] in Hin.
    assert (Hhl : b0 <= hl_b hl).
    { pose proof (recount_lines_from (l :: ls) b0) as Hfrom.
      rewrite Forall_forall in Hfrom. apply Hfrom. exact Hin. }
    destruct (negb _).
    + exists (hl_b hl), col. split; [reflexivity|]. lia.
    + destruct (next_available_one_based line_indentation
                  (hl_line hl) (hl_b hl) col rest Hli) as [Hx Hy];
        [lia|auto| |].
      * eapply Forall_impl; [|exact Hrest]. cbn beta. intros x. lia.
      * destruct (next_available _ _ _ _ _) as [row col'].
        exists row, col'. split; [reflexivity|]. cbn [fst snd] in *. lia.
Qed.

End RowColClaims.

(** The hunk theorems at work on text lines. *)

(** An indentation measure for the examples: the leading blanks. *)
Definition leading_blanks (s : str) : Z := len s - len (lstrip s).

Lemma real_rowcol_on_header_witness :
  real_rowcol_in_hunk leading_blanks
    (mkHunk (Some 5) [mkTextLine (lit "-old"); mkTextLine (lit " ");
                      mkTextLine (lit " keep")])
    (0, 9)
  = Returns (Some (6, 1)).
Proof.
  exact (proj2 (real_rowcol_on_header leading_blanks
                  (mkHunk (Some 5) [mkTextLine (lit "-old");
                                    mkTextLine (lit " ");
                                    mkTextLine (lit " keep")])
                  9 5 eq_refl)
           (mkTextLine (lit "-old")) (mkTextLine (lit " "))
           (mkTextLine (lit " keep")) [] eq_refl eq_refl eq_refl eq_refl
           ltac:(discriminate)).
Defined.

Lemma real_rowcol_on_deletion_witness :
  real_rowcol_in_hunk leading_blanks
    (mkHunk (Some 7) [mkTextLine (lit "-  gone"); mkTextLine (lit "   stay")])
    (1, 5)
  = Returns (Some (7, 3)).
Proof.
  exact (proj1 (real_rowcol_on_deletion leading_blanks
                  (mkHunk (Some 7) [mkTextLine (lit "-  gone");
                                    mkTextLine (lit "   stay")])
                  1 5
                  [mkHunkLineWithB (mkTextLine (lit "-  gone")) 7;
                   mkHunkLineWithB (mkTextLine (lit "   stay")) 7]
                  (mkHunkLineWithB (mkTextLine (lit "-  gone")) 7)
                  eq_refl (Z.le_refl 1) eq_refl eq_refl)
           [] (mkHunkLineWithB (mkTextLine (lit "   stay")) 7) []
           eq_refl (Forall_nil _) eq_refl eq_refl).
Defined.

Lemma real_rowcol_in_hunk_total_witness :
  exists row col,
    real_rowcol_in_hunk leading_blanks
      (mkHunk (Some 10) [mkTextLine (lit "-foo"); mkTextLine (lit "+bar")])
      (2, 3)
    = Returns (Some (row, col))
    /\ 1 <= row /\ 1 <= col.
Proof.
  apply (proj2 (proj2 (real_rowcol_in_hunk_total leading_blanks
           (mkHunk (Some 10) [mkTextLine (lit "-foo"); mkTextLine (lit "+bar")])
           2 3)) 10).
  - reflexivity.
  - discriminate.
  - vm_compute. split; discriminate.
  - lia.
  - lia.
  - intros s. unfold leading_blanks, len.
    assert (length (lstrip s) <= length s)%nat; [|lia].
    induction s as [|x s IH]; [reflexivity|].
    cbn [lstrip]. destruct (isspace x); cbn [length] in *; lia.
Defined.

(** C6, as stated, fails: a hunk that starts at destination line 0 gives
    row 0, a column below 1 comes back unchanged from a line that is no
    deletion, and a row beyond the content lines is out of range. *)
Lemma real_rowcol_in_hunk_not_one_based :
  (exists row col,
      real_rowcol_in_hunk leading_blanks
        (mkHunk (Some 0) [mkTextLine (lit "-foo")]) (1, 1)
      = Returns (Some (row, col))
      /\ ~ 1 <= row)
  /\ (exists row col,
         real_rowcol_in_hunk leading_blanks
           (mkHunk (Some 10) [mkTextLine (lit " foo")]) (1, 0)
         = Returns (Some (row, col))
         /\ ~ 1 <= col)
  /\ real_rowcol_in_hunk leading_blanks
       (mkHunk (Some 10) [mkTextLine (lit " foo")]) (2, 1)
     = IndexError.
Proof.
  split; [|split].
  - exists 0, 1. split; [reflexivity|lia].
  - exists 10, 0. split; [reflexivity|lia].
  - reflexivity.
Qed.

(** ** The fuzzy search *)

Lemma py_slice_nat {A : Type} (l : list A) (a b : nat) :
  (a <= b <= length l)%nat ->
  py_slice l (Z.of_nat a) (Z.of_nat b) = firstn (b - a) (skipn a l).
Proof.
  intros Hab. unfold py_slice, slice_bound, len.
  destruct (Z.of_nat a <? 0) eqn:Ea; [lia|].
  destruct (Z.of_nat b <? 0) eqn:Eb; [lia|].
  rewrite !Z.min_l by lia.
  rewrite Nat2Z.id. f_equal. lia.
Qed.

(** [l[1:-1]] drops the first and the last element. *)
Lemma py_slice_shrink {A : Type} (x : A) (l : list A) :
  py_slice (x :: l) 1 (-1) = firstn (length l - 1) l.
Proof.
  unfold py_slice, slice_bound. rewrite len_cons.
  pose proof (len_nonneg l) as Hl.
  destruct (1 <? 0) eqn:E1; [lia|].
  destruct (-1 <? 0) eqn:E2; [|lia].
  replace (Z.to_nat (Z.min 1 (1 + len l))) with 1%nat by lia.
  cbn [skipn]. f_equal. unfold len in *. lia.
Qed.

Lemma shrink_list_sym_nil {T : Type} : shrink_list_sym (@nil T) = [].
Proof. now simp shrink_list_sym. Qed.

Lemma shrink_list_sym_cons {T : Type} (x : T) (l : list T) :
  shrink_list_sym (x :: l)
  = (x :: l) :: shrink_list_sym (py_slice (x :: l) 1 (-1)).
Proof. now simp shrink_list_sym. Qed.

(** The candidate after [k] shrink steps is [l[k : n - k]], as long as it
    is not empty. *)
Lemma shrink_list_sym_nth {T : Type} (k : nat) :
  forall l : list T,
    nth_error (shrink_list_sym l) k
    = if (2 * k <? length l)%nat
      then Some (py_slice l (Z.of_nat k) (len l - Z.of_nat k))
      else None.
Proof.
  induction k as [|k IH]; intros l.
  - destruct l as [|x l].
    + rewrite shrink_list_sym_nil. reflexivity.
    + rewrite shrink_list_sym_cons. cbn [nth_error].
      replace (2 * 0 <? length (x :: l))%nat with true
        by (symmetry; apply Nat.ltb_lt; cbn [length]; lia).
      f_equal. unfold len. change (Z.of_nat 0) with 0. rewrite Z.sub_0_r.
      change 0 with (Z.of_nat 0).
      rewrite (py_slice_nat (x :: l) 0 (length (x :: l))) by lia.
      rewrite Nat.sub_0_r. cbn [skipn]. symmetry. apply firstn_all.
  - destruct l as [|x l].
    + rewrite shrink_list_sym_nil. reflexivity.
    + rewrite shrink_list_sym_cons. cbn [nth_error].
      rewrite IH, py_slice_shrink.
      assert (Hlen : length (firstn (length l - 1) l) = (length l - 1)%nat)
        by (rewrite length_firstn; lia).
      unfold len. rewrite Hlen. cbn [length].
      destruct (2 * k <? length l - 1)%nat eqn:E.
      * apply Nat.ltb_lt in E.
        replace (2 * S k <? S (length l))%nat with true
          by (symmetry; apply Nat.ltb_lt; lia).
        f_equal.
        replace (Z.of_nat (length l - 1) - Z.of_nat k)
          with (Z.of_nat (length l - 1 - k)) by lia.
        replace (Z.of_nat (S (length l)) - Z.of_nat (S k))
          with (Z.of_nat (length l - k)) by lia.
        rewrite py_slice_nat by (rewrite Hlen; lia).
        rewrite py_slice_nat by (cbn [length]; lia).
        cbn [skipn]. rewrite skipn_firstn_comm, firstn_firstn.
        f_equal. lia.
      * apply Nat.ltb_ge in E.
        replace (2 * S k <? S (length l))%nat with false
          by (symmetry; apply Nat.ltb_ge; lia).
        reflexivity.
Qed.

Section FuzzySearchFacts.

Variables Head ViewHunk : Type.
Variable view_find : str -> option Region.
Variable head_and_hunk_for_pt : Z -> option (Head * ViewHunk).
Variable hunk_header : ViewHunk -> Region.

(** What the search answers once a candidate was found at [region]. *)
Definition header_region_at (region : Region) : option Region :=
  match head_and_hunk_for_pt (reg_a region) with
  | Some (_, hunk) =>
      Some (mkRegion (reg_a (hunk_header hunk)) (reg_b (hunk_header hunk)))
  | None => None
  end.

(** The candidates before the [k]-th are not in the view. *)
Definition none_found_before (candidates : list (list str)) (k : nat)
  : Prop :=
  forall j cj, (j < k)%nat -> nth_error candidates j = Some cj ->
               view_find (join [newline] cj) = None.

Lemma search_candidates_first_found candidates :
  forall k cand region,
    nth_error candidates k = Some cand ->
    none_found_before candidates k ->
    view_find (join [newline] cand) = Some region ->
    search_candidates Head ViewHunk view_find head_and_hunk_for_pt
      hunk_header candidates
    = header_region_at region.
Proof.
  induction candidates as [|c cs IH]; intros k cand region Hk Hbefore Hfound.
  - destruct k; discriminate.
  - cbn [search_candidates]. destruct k as [|k].
    + injection Hk as ->. rewrite Hfound. reflexivity.
    + rewrite (Hbefore 0%nat c) by (lia || reflexivity).
      apply (IH k cand region Hk); [|exact Hfound].
      intros j cj Hj Hcj. apply (Hbefore (S j) cj); [lia|exact Hcj].
Qed.

Lemma search_candidates_some candidates r :
  search_candidates Head ViewHunk view_find head_and_hunk_for_pt
    hunk_header candidates = Some r ->
  exists k cand region head hunk,
    nth_error candidates k = Some cand
    /\ none_found_before candidates k
    /\ view_find (join [newline] cand) = Some region
    /\ head_and_hunk_for_pt (reg_a region) = Some (head, hunk)
    /\ r = mkRegion (reg_a (hunk_header hunk)) (reg_b (hunk_header hunk)).
Proof.
  induction candidates as [|c cs IH]; [discriminate|].
  cbn [search_candidates].
  destruct (view_find (join [newline] c)) as [region|] eqn:Ef.
  - destruct (head_and_hunk_for_pt (reg_a region)) as [[head hunk]|] eqn:Eh;
      [|discriminate].
    intros [= <-]. exists 0%nat, c, region, head, hunk.
    split; [reflexivity|]. split; [intros j cj Hj; lia|].
    split; [exact Ef|]. split; [exact Eh|reflexivity].
  - intros Hr.
    destruct (IH Hr) as (k & cand & region & head & hunk
                         & Hk & Hbefore & Hfound & Hh & ->).
    exists (S k), cand, region, head, hunk.
    split; [exact Hk|]. split; [|auto].
    intros [|j] cj Hj; cbn [nth_error].
    + intros [= <-]. exact Ef.
    + apply Hbefore. lia.
Qed.

Lemma search_candidates_none_found candidates :
  (forall cand, In cand candidates ->
                view_find (join [newline] cand) = None) ->
  search_candidates Head ViewHunk view_find head_and_hunk_for_pt
    hunk_header candidates = None.
Proof.
  induction candidates as [|c cs IH]; intros Hnone; [reflexivity|].
  cbn [search_candidates]. rewrite (Hnone c (or_introl eq_refl)).
  apply IH. intros cand Hin. apply Hnone. right. exact Hin.
Qed.

End FuzzySearchFacts.

(** C7: the candidate after [k] shrink steps is [lines[k : n - k]] and the
    candidates end when that is empty.  The search returns none when no
    candidate is in the view, and otherwise answers from the first
    candidate that is: with the header region of the hunk that the
    re-parsed view has at the start of that match (not with the region of
    the match), or with none when no hunk is there.  For the content lines
    [a, b, c, d, e] that are not in the view while ["b\nc\nd"] is, this
    first candidate is the one after exactly one shrink step. *)
Theorem fuzzy_search_shrinks_symmetrically
    (Head ViewHunk : Type) (view_find : str -> option Region)
    (head_and_hunk_for_pt : Z -> option (Head * ViewHunk))
    (hunk_header : ViewHunk -> Region) :
  let search :=
    fuzzy_search_hunk_content_in_view Head ViewHunk view_find
      head_and_hunk_for_pt hunk_header in
  let header_of region :=
    match head_and_hunk_for_pt (reg_a region) with
    | Some (_, hunk) =>
        Some (mkRegion (reg_a (hunk_header hunk)) (reg_b (hunk_header hunk)))
    | None => None
    end in
  let abcde := [lit "a"; lit "b"; lit "c"; lit "d"; lit "e"] in
  let bcd := [lit "b"; lit "c"; lit "d"] in
  (forall (lines : list str) (k : nat),
      nth_error (shrink_list_sym lines) k
      = if (2 * k <? length lines)%nat
        then Some (py_slice lines (Z.of_nat k) (len lines - Z.of_nat k))
        else None)
  /\ (forall lines k cand region,
         nth_error (shrink_list_sym lines) k = Some cand ->
         (forall j cj, (j < k)%nat ->
                       nth_error (shrink_list_sym lines) j = Some cj ->
                       view_find (join [newline] cj) = None) ->
         view_find (join [newline] cand) = Some region ->
         search lines = header_of region)
  /\ (forall lines,
         (forall cand, In cand (shrink_list_sym lines) ->
                       view_find (join [newline] cand) = None) ->
         search lines = None)
  /\ (forall region,
         view_find (join [newline] abcde) = None ->
         view_find (join [newline] bcd) = Some region ->
         nth_error (shrink_list_sym abcde) 1 = Some bcd
         /\ search abcde = header_of region)
  /\ (forall lines r,
         search lines = Some r ->
         exists k cand region head hunk,
           nth_error (shrink_list_sym lines) k = Some cand
           /\ (forall j cj, (j < k)%nat ->
                            nth_error (shrink_list_sym lines) j = Some cj ->
                            view_find (join [newline] cj) = None)
           /\ view_find (join [newline] cand) = Some region
           /\ head_and_hunk_for_pt (reg_a region) = Some (head, hunk)
           /\ r = mkRegion (reg_a (hunk_header hunk))
                           (reg_b (hunk_header hunk))).
Proof.
  cbv zeta. split; [|split; [|split; [|split]]].
  - intros lines k. apply shrink_list_sym_nth.
  - intros lines k cand region Hk Hbefore Hfound.
    unfold fuzzy_search_hunk_content_in_view.
    exact (search_candidates_first_found _ _ _ _ _ _ k cand region
             Hk Hbefore Hfound).
  - intros lines Hnone. unfold fuzzy_search_hunk_content_in_view.
    apply search_candidates_none_found. exact Hnone.
  - intros region Hfull Hbcd.
    assert (H1 : nth_error
                   (shrink_list_sym
                      [lit "a"; lit "b"; lit "c"; lit "d"; lit "e"]) 1
                 = Some [lit "b"; lit "c"; lit "d"])
      by (rewrite shrink_list_sym_nth; reflexivity).
    split; [exact H1|].
    unfold fuzzy_search_hunk_content_in_view.
    apply (search_candidates_first_found _ _ _ _ _ _ 1%nat _ _ H1);
      [|exact Hbcd].
    intros j cj Hj. assert (j = 0%nat) as -> by lia.
    rewrite shrink_list_sym_cons. cbn [nth_error].
    intros [= <-]. exact Hfull.
  - intros lines r. apply search_candidates_some.
Qed.

(** C10: when the first candidate that is in the view starts at a point
    that lies in no hunk of the re-parsed view, the search answers none:
    the candidates after it are never tried. *)
Theorem fuzzy_search_gives_up_outside_hunk
    (Head ViewHunk : Type) (view_find : str -> option Region)
    (head_and_hunk_for_pt : Z -> option (Head * ViewHunk))
    (hunk_header : ViewHunk -> Region)
    (lines : list str) (k : nat) (cand : list str) (region : Region) :
  nth_error (shrink_list_sym lines) k = Some cand ->
  none_found_before view_find (shrink_list_sym lines) k ->
  view_find (join [newline] cand) = Some region ->
  head_and_hunk_for_pt (reg_a region) = None ->
  fuzzy_search_hunk_content_in_view Head ViewHunk view_find
    head_and_hunk_for_pt hunk_header lines = None.
Proof.
  intros Hk Hbefore Hfound Hout.
  unfold fuzzy_search_hunk_content_in_view.
  rewrite (search_candidates_first_found _ _ _ _ _ _ k cand region
             Hk Hbefore Hfound).
  unfold header_region_at. rewrite Hout. reflexivity.
Qed.

(** A view for the examples: a hunk whose header is [[20,29)] and whose
    content is [[30,60)] and holds a line ["c"] at 40, and further down,
    outside every hunk, the text ["b\nc\nd"] at 98. *)
Definition found_at (needle : str) (spot : Region) (pattern : str)
  : option Region :=
  if String.eqb (string_of_list_ascii pattern) (string_of_list_ascii needle)
  then Some spot else None.

Definition example_find (pattern : str) : option Region :=
  match found_at (join [newline] [lit "b"; lit "c"; lit "d"])
                 (mkRegion 98 103) pattern with
  | Some region => Some region
  | None => found_at (lit "c") (mkRegion 40 41) pattern
  end.

Definition example_hunk_for_pt (pt : Z) : option (unit * Region) :=
  if (20 <=? pt) && (pt <? 60) then Some (tt, mkRegion 20 29) else None.

(** A second view for the examples: of the seven lines [a] to [g] only
    the line ["d"] is there, at 40 in the hunk above. *)
Definition example_find_d (pattern : str) : option Region :=
  found_at (lit "d") (mkRegion 40 41) pattern.

Lemma fuzzy_search_shrinks_symmetrically_witness :
  fuzzy_search_hunk_content_in_view unit Region example_find_d
    example_hunk_for_pt (fun header => header)
    [lit "a"; lit "b"; lit "c"; lit "d"; lit "e"; lit "f"; lit "g"]
  = Some (mkRegion 20 29).
Proof.
  apply (proj1 (proj2
           (fuzzy_search_shrinks_symmetrically unit Region example_find_d
              example_hunk_for_pt (fun header => header)))
           [lit "a"; lit "b"; lit "c"; lit "d"; lit "e"; lit "f"; lit "g"]
           3%nat [lit "d"] (mkRegion 40 41)).
  - reflexivity.
  - intros j cj Hj.
    destruct j as [|[|[|j]]]; [| | |lia];
      intros E; vm_compute in E; injection E as <-; reflexivity.
  - reflexivity.
Defined.

Lemma fuzzy_search_gives_up_outside_hunk_witness :
  fuzzy_search_hunk_content_in_view unit Region example_find
    example_hunk_for_pt (fun header => header)
    [lit "a"; lit "b"; lit "c"; lit "d"; lit "e"] = None
  /\ fuzzy_search_hunk_content_in_view unit Region example_find
       example_hunk_for_pt (fun header => header) [lit "c"]
     = Some (mkRegion 20 29).
Proof.
  split; [|reflexivity].
  apply (fuzzy_search_gives_up_outside_hunk unit Region example_find
           example_hunk_for_pt (fun header => header)
           [lit "a"; lit "b"; lit "c"; lit "d"; lit "e"]
           1 [lit "b"; lit "c"; lit "d"] (mkRegion 98 103)).
  - reflexivity.
  - intros j cj Hj. assert (j = 0%nat) as -> by lia.
    intros E. vm_compute in E. injection E as <-. reflexivity.
  - reflexivity.
  - reflexivity.
Defined.


(** * Further properties of the diff view *)

(** ** The regions of the drawn view

    [run_impl] calls [postprocess_word_diff(diff, len(prelude))] and
    [_draw] puts [prelude + diff_text] into the view before it adds the
    regions. *)

(** [text = prelude + diff_text] in [_draw]. *)
Definition drawn_text (prelude diff_text : str) : str := prelude ++ diff_text.

(** The region ends where or before the next one starts. *)
Definition ends_before (r1 r2 : Region) : Prop := reg_b r1 <= reg_a r2.

(** The recorded regions of all matches, in match order, each with the
    list it goes to. *)
Fixpoint tagged_regions (global_offset k : Z) (ms : list Match)
  : list (bool * Region) :=
  match ms with
  | [] => []
  | m :: ms' =>
      (is_added m, expected_region global_offset k m)
        :: tagged_regions global_offset (k + 1) ms'
  end.

Lemma expected_regions_tagged base flag ms :
  forall k,
    expected_regions base k ms flag
    = map snd (filter (fun p => Bool.eqb (fst p) flag)
                      (tagged_regions base k ms)).
Proof.
  induction ms as [|m ms IH]; intros k; [reflexivity|].
  cbn [expected_regions tagged_regions filter fst].
  rewrite IH. destruct (Bool.eqb (is_added m) flag); reflexivity.
Qed.

Lemma expected_regions_in base flag ms :
  forall k0 r,
    In r (expected_regions base k0 ms flag) ->
    exists k m,
      nth_error ms k = Some m /\ is_added m = flag
      /\ r = expected_region base (k0 + Z.of_nat k) m.
Proof.
  induction ms as [|m ms IH]; intros k0 r; [intros []|].
  cbn [expected_regions]. rewrite in_app_iff. intros [Hin|Hin].
  - destruct (Bool.eqb (is_added m) flag) eqn:E; [|destruct Hin].
    destruct Hin as [<-|[]]. exists 0%nat, m.
    split; [reflexivity|]. split; [apply Bool.eqb_prop; exact E|].
    f_equal. lia.
  - destruct (IH _ _ Hin) as (k & m' & Hk & Hf & ->).
    exists (S k), m'. split; [exact Hk|]. split; [exact Hf|].
    f_equal. lia.
Qed.

(** In the output of the walk, the recorded regions of the matches follow
    each other without overlap and stay inside the output. *)
Lemma tagged_regions_sorted base pos s :
  forall k st,
    Forall (fun p => base + pos - 4 * k <= reg_a (snd p)
                     /\ reg_a (snd p) <= reg_b (snd p)
                     /\ reg_b (snd p)
                        <= base + pos - 4 * k
                           + len (fst (re_sub (extractor base) pos s st)))
           (tagged_regions base k (finditer pos s))
    /\ StronglySorted (fun p q => ends_before (snd p) (snd q))
         (tagged_regions base k (finditer pos s)).
Proof.
  revert pos s. apply (walk_ind (fun pos s => forall k st, _ /\ _)).
  - intros pos k st. rewrite finditer_nil. split; constructor.
  - intros pos c s' E IH k st.
    rewrite (finditer_skip _ _ _ E), (re_sub_skip _ _ _ _ _ E).
    cbv zeta. cbn [fst]. rewrite len_cons.
    destruct (IH k st) as [Hb Hs]. split; [|exact Hs].
    eapply Forall_impl; [|exact Hb]. cbn beta. intros p. lia.
  - intros pos s n E IH k [A R].
    rewrite (finditer_match _ _ _ E), (re_sub_match _ _ _ _ _ E).
    cbv zeta. cbn [fst]. rewrite extractor_unfold. cbn [fst snd].
    pose proof (match_here_bounds _ _ E) as Hn.
    pose proof (inner_match_length s n pos (pos + Z.of_nat n) E) as Hi.
    rewrite len_app, Hi.
    match goal with
    | |- context [re_sub _ _ _ ?st'] => destruct (IH (k + 1) st') as [Hb Hs]
    end.
    cbn [tagged_regions]. split.
    + constructor.
      * unfold expected_region. cbn [snd reg_a reg_b m_start].
        rewrite Hi.
        match goal with
        | |- context [len (fst ?x)] => pose proof (len_nonneg (fst x))
        end. lia.
      * eapply Forall_impl; [|exact Hb]. cbn beta. intros p. lia.
    + constructor; [exact Hs|].
      eapply Forall_impl; [|exact Hb]. cbn beta. intros p.
      unfold ends_before, expected_region. cbn [snd reg_a reg_b m_start].
      rewrite Hi. lia.
Qed.

Lemma StronglySorted_filter {A : Type} (R : A -> A -> Prop) (f : A -> bool) l :
  StronglySorted R l -> StronglySorted R (filter f l).
Proof.
  induction 1 as [|x l Hs IH Hx]; [constructor|].
  cbn [filter]. destruct (f x); [|exact IH].
  constructor; [exact IH|].
  rewrite Forall_forall in *. intros y Hy.
  apply filter_In in Hy. apply Hx, Hy.
Qed.

Lemma StronglySorted_map {A B : Type} (R : B -> B -> Prop) (g : A -> B) l :
  StronglySorted (fun x y => R (g x) (g y)) l -> StronglySorted R (map g l).
Proof.
  induction 1 as [|x l Hs IH Hx]; [constructor|].
  cbn [map]. constructor; [exact IH|].
  rewrite Forall_forall in *. intros y Hy.
  apply in_map_iff in Hy as (z & <- & Hz). apply Hx, Hz.
Qed.

(** Two entries of a strongly sorted list, in one order or the other. *)
Lemma StronglySorted_either {A : Type} (R : A -> A -> Prop) l x y :
  StronglySorted R l -> In x l -> In y l -> x = y \/ R x y \/ R y x.
Proof.
  induction 1 as [|z l Hs IH Hz]; [intros []|].
  rewrite Forall_forall in Hz.
  intros [->|Hx] [->|Hy]; auto.
Qed.

(** The number of newlines in a text. *)
Definition count_newlines (s : str) : nat := count_occ ascii_dec s newline.

Lemma count_newlines_app s1 s2 :
  count_newlines (s1 ++ s2) = (count_newlines s1 + count_newlines s2)%nat.
Proof. apply count_occ_app. Qed.

Lemma count_newlines_marker added t :
  count_newlines (marker_text added t) = count_newlines t.
Proof.
  unfold count_newlines.
  destruct added; cbn [marker_text];
    repeat (rewrite count_occ_cons_neq by discriminate);
    rewrite count_occ_app;
    cbn [count_occ];
    repeat match goal with
           | |- context [ascii_dec ?a ?b] =>
               destruct (ascii_dec a b); [discriminate|]
           end; lia.
Qed.

Lemma re_sub_newlines base pos s :
  forall st,
    count_newlines (fst (re_sub (extractor base) pos s st)) = count_newlines s.
Proof.
  revert pos s. apply (walk_ind (fun pos s => forall st, _ = _)).
  - intros pos st. rewrite re_sub_nil. reflexivity.
  - intros pos c s' E IH st. rewrite (re_sub_skip _ _ _ _ _ E).
    cbv zeta. cbn [fst]. unfold count_newlines in *. cbn [count_occ].
    rewrite IH. reflexivity.
  - intros pos s n E IH [A R]. rewrite (re_sub_match _ _ _ _ _ E).
    cbv zeta. cbn [fst]. rewrite extractor_unfold. cbn [fst snd].
    rewrite count_newlines_app, IH.
    rewrite <- (firstn_skipn n s) at 3. rewrite count_newlines_app.
    f_equal.
    destruct (firstn_match _ _ E) as (added & t & Hg & _ & _).
    rewrite Hg, inner_marker, count_newlines_marker. reflexivity.
Qed.

Lemma expected_regions_in_tagged base flag k ms r :
  In r (expected_regions base k ms flag) ->
  In (flag, r) (tagged_regions base k ms).
Proof.
  rewrite expected_regions_tagged. intros Hin.
  apply in_map_iff in Hin as ([f r'] & Hr & Hin). cbn [snd] in Hr. subst r'.
  apply filter_In in Hin as [Hin Hf]. cbn [fst] in Hf.
  apply Bool.eqb_prop in Hf. subst f. exact Hin.
Qed.

(** X1: in the view that [_draw] fills with [prelude + diff_text], every
    region of the added list lies over the inner text of a [{+t+}] marker of
    the diff, and every region of the removed list over the inner text of a
    [[-t-]] marker. *)
Theorem drawn_regions_cover_inner_text (prelude text : str) (r : Region) :
  let result := postprocess_word_diff text (len prelude) in
  let view_text := drawn_text prelude (fst (fst result)) in
  (In r (snd (fst result)) ->
   exists m, In m (finditer 0 text) /\ is_added m = true
             /\ m_group m = marker_text true (inner m)
             /\ py_slice view_text (reg_a r) (reg_b r) = inner m)
  /\ (In r (snd result) ->
      exists m, In m (finditer 0 text) /\ is_added m = false
                /\ m_group m = marker_text false (inner m)
                /\ py_slice view_text (reg_a r) (reg_b r) = inner m).
Proof.
  cbv zeta.
  assert (Hcover : forall flag,
    In r (expected_regions (len prelude) 0 (finditer 0 text) flag) ->
    exists m, In m (finditer 0 text) /\ is_added m = flag
              /\ m_group m = marker_text flag (inner m)
              /\ py_slice
                   (drawn_text prelude
                      (fst (fst (postprocess_word_diff text (len prelude)))))
                   (reg_a r) (reg_b r) = inner m).
  { intros flag Hin.
    apply expected_regions_in in Hin as (k & m & Hk & Hf & ->).
    exists m. split; [eapply nth_error_In; exact Hk|]. split; [exact Hf|].
    split.
    { pose proof (finditer_placed 0 text) as Hp.
      rewrite Forall_forall in Hp.
      destruct (Hp m (nth_error_In _ _ Hk)) as (_ & _ & _ & _ & Hg & _).
      rewrite <- Hf. exact Hg. }
    unfold postprocess_word_diff, drawn_text. cbv zeta. cbn [fst].
    destruct (re_sub_window (len prelude) 0 text ([], []) k m Hk) as [H0 Hw].
    unfold expected_region. cbn [reg_a reg_b].
    apply py_slice_window.
    - pose proof (len_nonneg prelude). lia.
    - replace (Z.to_nat (len prelude + m_start m - 4 * (0 + Z.of_nat k)))
        with (length prelude + Z.to_nat (m_start m - 0 - 4 * Z.of_nat k))%nat
        by (unfold len; lia).
      rewrite skipn_app, skipn_all2 by lia. cbn [app].
      replace (length prelude + _ - length prelude)%nat
        with (Z.to_nat (m_start m - 0 - 4 * Z.of_nat k)) by lia.
      exact Hw. }
  split; intros Hin; [apply (Hcover true)|apply (Hcover false)];
    rewrite postprocess_word_diff_unfold in Hin; exact Hin.
Qed.

Lemma drawn_regions_cover_inner_text_witness :
  exists m, In m (finditer 0 (lit "x{+a+}[-bc-]")) /\ is_added m = false
            /\ m_group m = marker_text false (inner m)
            /\ py_slice
                 (drawn_text (lit "DIFF ")
                    (fst (fst (postprocess_word_diff (lit "x{+a+}[-bc-]") 5))))
                 7 9 = inner m.
Proof.
  apply (proj2 (drawn_regions_cover_inner_text (lit "DIFF ")
                  (lit "x{+a+}[-bc-]") (mkRegion 7 9))).
  vm_compute. left. reflexivity.
Defined.

(** X2: the recorded regions never leave the output text (shifted by the
    base offset) and never overlap: within each list a region ends where or
    before the next one starts, and an added and a removed region are
    disjoint. *)
Theorem word_diff_regions_disjoint_in_bounds (text : str) (base : Z) :
  let result := postprocess_word_diff text base in
  let out := fst (fst result) in
  let added := snd (fst result) in
  let removed := snd result in
  Forall (fun r => base <= reg_a r /\ reg_a r <= reg_b r
                   /\ reg_b r <= base + len out) (added ++ removed)
  /\ StronglySorted ends_before added
  /\ StronglySorted ends_before removed
  /\ (forall r1 r2, In r1 added -> In r2 removed ->
                    ends_before r1 r2 \/ ends_before r2 r1).
Proof.
  cbv zeta.
  destruct (tagged_regions_sorted base 0 text 0 ([], [])) as [Hb Hs].
  replace (base + 0 - 4 * 0) with base in Hb by lia.
  assert (Hout : fst (fst (postprocess_word_diff text base))
                 = fst (re_sub (extractor base) 0 text ([], [])))
    by reflexivity.
  rewrite Hout. rewrite postprocess_word_diff_unfold. cbn [fst snd].
  rewrite Forall_forall in Hb.
  split; [|split; [|split]].
  - apply Forall_forall. intros r Hr. apply in_app_iff in Hr.
    destruct Hr as [Hr|Hr]; apply expected_regions_in_tagged in Hr;
      exact (Hb _ Hr).
  - rewrite expected_regions_tagged.
    apply StronglySorted_map, StronglySorted_filter. exact Hs.
  - rewrite expected_regions_tagged.
    apply StronglySorted_map, StronglySorted_filter. exact Hs.
  - intros r1 r2 H1 H2.
    apply expected_regions_in_tagged in H1, H2.
    destruct (StronglySorted_either _ _ _ _ Hs H1 H2) as [E|[H|H]];
      [discriminate E|left; exact H|right; exact H].
Qed.

Lemma word_diff_regions_disjoint_in_bounds_witness :
  ends_before (mkRegion 1 2) (mkRegion 2 4)
  \/ ends_before (mkRegion 2 4) (mkRegion 1 2).
Proof.
  apply (proj2 (proj2 (proj2
           (word_diff_regions_disjoint_in_bounds (lit "x{+a+}[-bc-]") 0)))).
  - vm_compute. left. reflexivity.
  - vm_compute. left. reflexivity.
Defined.

(** X3: the output has as many newlines as the input: a marker never spans
    lines and only marker delimiters are dropped, so every line of the diff
    keeps its row in the view. *)
Theorem postprocess_word_diff_keeps_rows (text : str) (base : Z) :
  count_newlines (fst (fst (postprocess_word_diff text base)))
  = count_newlines text.
Proof.
  unfold postprocess_word_diff. cbv zeta. cbn [fst].
  apply re_sub_newlines.
Qed.

(** ** From the cursor to a place in the file *)

(** What [jump_position_to_file] reads of a hunk of the view: where it
    starts ([hunk.a]) besides its header and content. *)
Record PlacedHunk (L : Type) : Type := mkPlacedHunk {
  hunk_a : Z;
  hunk_parts : Hunk L
}.
Arguments mkPlacedHunk {L} _ _.
Arguments hunk_a {L} _.
Arguments hunk_parts {L} _.

(** [JumpTo = namedtuple('JumpTo', 'commit_hash filename row col')] *)
Record JumpTo : Type := mkJumpTo {
  jt_commit_hash : option str;
  jt_filename : str;
  jt_row : Z;
  jt_col : Z
}.

Section JumpToFile.

Context {L : Type} `{HunkLineOps L}.

Variable line_indentation : str -> Z.

(** The view and the parsed diff, as the two functions see them:
    [view.rowcol], [diff.head_and_hunk_for_pt], [header.from_filename],
    [diff.commit_for_hunk] and [commit_header.commit_hash]. *)
Variables Header CommitHeader : Type.
Variable view_rowcol : Z -> Z * Z.
Variable head_and_hunk_for_pt : Z -> option (Header * PlacedHunk L).
Variable from_filename : Header -> option str.
Variable commit_for_hunk : PlacedHunk L -> option CommitHeader.
Variable commit_hash : CommitHeader -> option str.

Definition relative_rowcol_in_hunk (hunk : PlacedHunk L) (pt : Z) : Z * Z :=
  let '(head_row, _) := view_rowcol (hunk_a hunk) in
  let '(pt_row, col) := view_rowcol pt in
  (pt_row - head_row, Z.max col 1).

Definition jump_position_to_file (pt : Z) : outcome (option JumpTo) :=
  match head_and_hunk_for_pt pt with
  | None => Returns None
  | Some (header, hunk) =>
      match real_rowcol_in_hunk line_indentation (hunk_parts hunk)
              (relative_rowcol_in_hunk hunk pt) with
      | IndexError => IndexError
      | Returns None => Returns None
      | Returns (Some (row, col)) =>
          match from_filename header with
          | Some filename =>
              if truthy filename
              then
                let commit_header := commit_for_hunk hunk in
                let commit :=
                  match commit_header with
                  | Some ch => commit_hash ch
                  | None => None
                  end in
                Returns (Some (mkJumpTo commit filename row col))
              else Returns None
          | None => Returns None
          end
      end
  end.

(** The lines of the destination side among [ls]: all but the deletions. *)
Definition count_present (ls : list L) : Z :=
  len (filter (fun l => negb (is_from_line l)) ls).

Lemma recount_lines_app (l1 l2 : list L) (b : Z) :
  _recount_lines (l1 ++ l2) b
  = _recount_lines l1 b ++ _recount_lines l2 (b + count_present l1).
Proof.
  revert b; induction l1 as [|l l1 IH]; intros b.
  - cbn. rewrite Z.add_0_r. reflexivity.
  - cbn [app _recount_lines]. rewrite IH. f_equal. f_equal. f_equal.
    unfold count_present. cbn [filter].
    destruct (negb (is_from_line l)); [rewrite len_cons|]; lia.
Qed.

Lemma count_present_bounds (ls : list L) : 0 <= count_present ls <= len ls.
Proof.
  unfold count_present, len.
  pose proof (filter_length_le (fun l => negb (is_from_line l)) ls). lia.
Qed.

(** The answer at a row whose line stands at the end of [before]. *)
Lemma real_rowcol_at (b0 : Z) (before : list L) (l : L) (after : list L)
    (c : Z) :
  real_rowcol_in_hunk line_indentation
    (mkHunk (Some b0) (before ++ l :: after)) (len before + 1, c)
  = let b := b0 + count_present before in
    if negb (is_from_line l)
    then Returns (Some (b, c))
    else Returns (Some (next_available line_indentation l b c
                          (_recount_lines after b))).
Proof.
  pose proof (len_nonneg before) as Hb.
  rewrite (real_rowcol_in_hunk_lines line_indentation _
             (_recount_lines (before ++ l :: after) b0)); [|reflexivity|].
  2: { destruct before; discriminate. }
  replace (len before + 1 =? 0) with false
    by (symmetry; apply Z.eqb_neq; lia).
  rewrite recount_lines_app. cbn [_recount_lines].
  assert (Hlen : Z.to_nat (len before + 1 - 1)
                 = length (_recount_lines before b0)).
  { rewrite recount_lines_length. unfold len. lia. }
  erewrite py_index_nonneg; [|lia|].
  2: { rewrite Hlen, nth_error_app2, Nat.sub_diag by lia. reflexivity. }
  cbn [hl_line hl_b]. cbv zeta.
  destruct (negb (is_from_line l)) eqn:E; [reflexivity|].
  rewrite py_slice_from_nonneg.
  2: { rewrite len_app, len_cons. unfold len.
       rewrite recount_lines_length. lia. }
  replace (Z.to_nat (len before + 1))
    with (length (_recount_lines before b0) + 1)%nat
    by (rewrite recount_lines_length; unfold len; lia).
  rewrite skipn_app, skipn_all2, Nat.add_comm, Nat.add_sub by lia.
  reflexivity.
Qed.

(** X4: on a row whose line is no deletion the answer is the start line of
    the hunk plus the number of non-deletion lines before that row, with
    the column unchanged; in a hunk without deletions row [r] therefore
    maps to [b0 + r - 1]. *)
Theorem real_rowcol_on_present_line (b0 : Z) (before : list L) (l : L)
    (after : list L) (c : Z) :
  is_from_line l = false ->
  real_rowcol_in_hunk line_indentation
    (mkHunk (Some b0) (before ++ l :: after)) (len before + 1, c)
  = Returns (Some (b0 + count_present before, c))
  /\ (Forall (fun x => is_from_line x = false) before ->
      real_rowcol_in_hunk line_indentation
        (mkHunk (Some b0) (before ++ l :: after)) (len before + 1, c)
      = Returns (Some (b0 + (len before + 1) - 1, c))).
Proof.
  intros Hl. rewrite real_rowcol_at. cbv zeta. rewrite Hl. cbn [negb].
  split; [reflexivity|].
  intros Hall. do 3 f_equal. unfold count_present.
  replace (filter (fun x => negb (is_from_line x)) before) with before; [lia|].
  symmetry. apply forallb_filter_id. apply forallb_forall.
  rewrite Forall_forall in Hall. intros x Hx. rewrite (Hall x Hx). reflexivity.
Qed.

(** X5: on a deletion that is followed by further deletions and then an
    addition, the answer is the deletion's own b-number (the start line plus
    the non-deletion lines before it), which is the addition's b-number as
    well, with the column clamped to the addition's length + 1. *)
Theorem real_rowcol_deletions_then_addition (b0 : Z) (before : list L)
    (del : L) (dels : list L) (add : L) (after : list L) (c : Z) :
  is_from_line del = true ->
  Forall (fun x => is_from_line x = true /\ is_to_line x = false
                   /\ is_context x = false) dels ->
  is_to_line add = true ->
  real_rowcol_in_hunk line_indentation
    (mkHunk (Some b0) (before ++ del :: dels ++ add :: after))
    (len before + 1, c)
  = Returns (Some (b0 + count_present before,
                   Z.min c (len (content add) + 1))).
Proof.
  intros Hdel Hdels Hadd. rewrite real_rowcol_at. cbv zeta.
  rewrite Hdel. cbn [negb]. do 2 f_equal.
  generalize (b0 + count_present before). intros b.
  induction Hdels as [|x dels (Hx1 & Hx2 & Hx3) _ IH].
  - cbn [app _recount_lines next_available hl_line hl_b].
    rewrite Hadd. reflexivity.
  - cbn [app _recount_lines next_available hl_line hl_b].
    rewrite Hx1, Hx2, Hx3. cbn [negb]. exact IH.
Qed.

(** X6: for a cursor on a row of a hunk (the header row or a content row)
    whose file name is known, [jump_position_to_file] raises nothing and
    returns a place in that file whose column is at least 1, and whose row
    is at least 1 when the hunk starts at line 1 or later. *)
Theorem jump_position_to_file_is_one_based (pt : Z) (header : Header)
    (hunk : PlacedHunk L) (b0 : Z) (filename : str) :
  (forall s, 0 <= line_indentation s) ->
  head_and_hunk_for_pt pt = Some (header, hunk) ->
  from_line_start (hunk_parts hunk) = Some b0 ->
  lines (hunk_parts hunk) <> [] ->
  0 <= fst (view_rowcol pt) - fst (view_rowcol (hunk_a hunk))
    <= len (lines (hunk_parts hunk)) ->
  from_filename header = Some filename ->
  filename <> [] ->
  exists jt,
    jump_position_to_file pt = Returns (Some jt)
    /\ jt_filename jt = filename
    /\ 1 <= jt_col jt
    /\ (1 <= b0 -> 1 <= jt_row jt).
Proof.
  intros Hli Hhh Hb0 Hne Hrow Hfile Hname.
  unfold jump_position_to_file. rewrite Hhh, Hfile.
  unfold relative_rowcol_in_hunk.
  destruct (view_rowcol (hunk_a hunk)) as [head_row x].
  destruct (view_rowcol pt) as [pt_row col]. cbn [fst] in Hrow.
  destruct (real_rowcol_in_hunk_shape line_indentation (hunk_parts hunk)
              (pt_row - head_row) (Z.max col 1) b0 Hb0 Hne Hrow)
    as (hl & col' & rest & Hin & Hcol & Hrest & ->).
  specialize (Hcol ltac:(lia)).
  assert (Hhl : b0 <= hl_b hl).
  { pose proof (recount_lines_from (lines (hunk_parts hunk)) b0) as Hfrom.
    rewrite Forall_forall in Hfrom. apply Hfrom. exact Hin. }
  assert (Htruthy : truthy filename = true)
    by (destruct filename; [contradiction|reflexivity]).
  destruct (negb (is_from_line (hl_line hl))).
  - rewrite Htruthy. eexists. split; [reflexivity|].
    cbn [jt_filename jt_col jt_row]. repeat split; lia.
  - destruct (next_available line_indentation (hl_line hl) (hl_b hl) col' rest)
      as [row col''] eqn:E.
    rewrite Htruthy. eexists. split; [reflexivity|].
    cbn [jt_filename jt_col jt_row]. split; [reflexivity|].
    assert (Hc : 1 <= col'').
    { clear Hin Hhl. revert E. induction Hrest as [|y rest Hy _ IH].
      - cbn. intros [= <- <-]. lia.
      - cbn [next_available].
        destruct (is_to_line (hl_line y)).
        + pose proof (len_nonneg (content (hl_line y))).
          intros [= <- <-]. lia.
        + destruct (is_context (hl_line y)); [|exact IH].
          pose proof (Hli (content (hl_line y))).
          destruct (_ =? _); intros [= <- <-]; lia. }
    split; [exact Hc|]. intros Hb.
    destruct (next_available_one_based line_indentation
                (hl_line hl) (hl_b hl) col' rest Hli) as [Hx _];
      [lia|exact Hcol| |].
    + eapply Forall_impl; [|exact Hrest]. cbn beta. intros y. lia.
    + rewrite E in Hx. exact Hx.
Qed.

End JumpToFile.

Lemma leading_blanks_nonneg (s : str) : 0 <= leading_blanks s.
Proof.
  unfold leading_blanks, len.
  assert (length (lstrip s) <= length s)%nat; [|lia].
  induction s as [|x s IH]; [reflexivity|].
  cbn [lstrip]. destruct (isspace x); cbn [length] in *; lia.
Qed.

Lemma real_rowcol_on_present_line_witness :
  real_rowcol_in_hunk leading_blanks
    (mkHunk (Some 10) [mkTextLine (lit " a"); mkTextLine (lit "-b");
                       mkTextLine (lit " c")])
    (3, 5)
  = Returns (Some (11, 5)).
Proof.
  exact (proj1 (real_rowcol_on_present_line leading_blanks 10
                  [mkTextLine (lit " a"); mkTextLine (lit "-b")]
                  (mkTextLine (lit " c")) [] 5 eq_refl)).
Defined.

Lemma real_rowcol_deletions_then_addition_witness :
  real_rowcol_in_hunk leading_blanks
    (mkHunk (Some 10) [mkTextLine (lit " a"); mkTextLine (lit "-b");
                       mkTextLine (lit "-c"); mkTextLine (lit "+de")])
    (2, 7)
  = Returns (Some (11, 3)).
Proof.
  exact (real_rowcol_deletions_then_addition leading_blanks 10
           [mkTextLine (lit " a")] (mkTextLine (lit "-b"))
           [mkTextLine (lit "-c")] (mkTextLine (lit "+de")) [] 7
           eq_refl
           (@Forall_cons TextLine
              (fun x => is_from_line x = true /\ is_to_line x = false
                        /\ is_context x = false)
              (mkTextLine (lit "-c")) []
              (conj eq_refl (conj eq_refl eq_refl)) (Forall_nil _))
           eq_refl).
Defined.

(** A view of ten characters a row, with one hunk that starts at point 20. *)
Definition example_rowcol (pt : Z) : Z * Z := (pt / 10, pt mod 10).

Definition example_placed_hunk : PlacedHunk TextLine :=
  mkPlacedHunk 20
    (mkHunk (Some 10) [mkTextLine (lit "-foo"); mkTextLine (lit "+bar")]).

Lemma jump_position_to_file_is_one_based_witness :
  exists jt,
    jump_position_to_file leading_blanks unit unit example_rowcol
      (fun _ => Some (tt, example_placed_hunk))
      (fun _ => Some (lit "a.py")) (fun _ => None) (fun _ => None) 35
    = Returns (Some jt)
    /\ jt_filename jt = lit "a.py"
    /\ 1 <= jt_col jt
    /\ (1 <= 10 -> 1 <= jt_row jt).
Proof.
  apply (jump_position_to_file_is_one_based leading_blanks unit unit
           example_rowcol (fun _ => Some (tt, example_placed_hunk))
           (fun _ => Some (lit "a.py")) (fun _ => None) (fun _ => None)
           35 tt example_placed_hunk 10 (lit "a.py")).
  - exact leading_blanks_nonneg.
  - reflexivity.
  - reflexivity.
  - discriminate.
  - vm_compute. split; discriminate.
  - reflexivity.
  - discriminate.
Defined.

(** ** Lists without repetition: [unique] and [first_per_file] *)

Section Unique.

Context {T : Type}.

(** [x == y] on the items. *)
Variable eqb : T -> T -> bool.

(** [item in rv] *)
Definition py_in (item : T) (rv : list T) : bool :=
  existsb (fun x => eqb x item) rv.

(** The loop of [unique], started with the list [rv]. *)
Fixpoint unique_loop (items rv : list T) : list T :=
  match items with
  | [] => rv
  | item :: rest =>
      unique_loop rest (if negb (py_in item rv) then rv ++ [item] else rv)
  end.

Definition unique (items : list T) : list T := unique_loop items [].

Hypothesis eqb_eq : forall x y, eqb x y = true <-> x = y.

Lemma py_in_In item rv : py_in item rv = true <-> In item rv.
Proof.
  unfold py_in. rewrite existsb_exists. split.
  - intros (x & Hx & E). apply eqb_eq in E. subst. exact Hx.
  - intros Hin. exists item. split; [exact Hin|]. apply eqb_eq. reflexivity.
Qed.

Lemma py_in_not_In item rv : py_in item rv = false <-> ~ In item rv.
Proof.
  rewrite <- py_in_In. destruct (py_in item rv); split; congruence.
Qed.

Lemma unique_loop_spec items :
  forall rv,
    NoDup rv ->
    NoDup (unique_loop items rv)
    /\ forall x, In x (unique_loop items rv) <-> In x rv \/ In x items.
Proof.
  induction items as [|item rest IH]; intros rv Hrv.
  - cbn. split; [exact Hrv|]. intros x. tauto.
  - cbn [unique_loop].
    destruct (py_in item rv) eqn:E; cbn [negb].
    + apply py_in_In in E. destruct (IH rv Hrv) as [Hn Hi].
      split; [exact Hn|]. intros x. rewrite Hi. cbn [In].
      split; [tauto|]. intros [?|[<-|?]]; auto.
    + apply py_in_not_In in E.
      assert (Hrv' : NoDup (rv ++ [item])).
      { apply NoDup_app; [exact Hrv|repeat constructor; intros []|].
        intros x Hx [<-|[]]. exact (E Hx). }
      destruct (IH _ Hrv') as [Hn Hi].
      split; [exact Hn|]. intros x. rewrite Hi, in_app_iff. cbn [In].
      tauto.
Qed.

(** With [x] already kept, the loop goes on as if [x] were not in the
    items at all. *)
Lemma unique_loop_head x items :
  forall rv,
    unique_loop items (x :: rv)
    = x :: unique_loop (filter (fun y => negb (eqb x y)) items) rv.
Proof.
  induction items as [|item rest IH]; intros rv; [reflexivity|].
  cbn [unique_loop filter]. unfold py_in. cbn [existsb].
  destruct (eqb x item) eqn:E; cbn [negb orb].
  - apply IH.
  - cbn [unique_loop]. unfold py_in.
    destruct (existsb (fun y => eqb y item) rv); cbn [negb]; apply (IH _).
Qed.

(** X7: [unique] returns a list without repetition that has exactly the
    elements of its argument. *)
Theorem unique_no_repetition (items : list T) :
  NoDup (unique items)
  /\ forall x, In x (unique items) <-> In x items.
Proof.
  destruct (unique_loop_spec items [] (NoDup_nil T)) as [Hn Hi].
  split; [exact Hn|]. intros x. unfold unique. rewrite Hi. cbn [In]. tauto.
Qed.

(** X8: [unique] keeps the order of first occurrences: the first item
    stays in front and the rest is [unique] of the other items; so a list
    without repetition comes back unchanged. *)
Theorem unique_keeps_first_occurrences (x : T) (items : list T) :
  unique (x :: items)
  = x :: unique (filter (fun y => negb (eqb x y)) items)
  /\ (NoDup (x :: items) -> unique (x :: items) = x :: items).
Proof.
  assert (Hhead : forall y l,
    unique (y :: l) = y :: unique (filter (fun z => negb (eqb y z)) l)).
  { intros y l. unfold unique. cbn [unique_loop py_in existsb negb app].
    apply unique_loop_head. }
  split; [apply Hhead|].
  revert x. induction items as [|y items IH]; intros x Hnd; [reflexivity|].
  rewrite Hhead. f_equal.
  inversion Hnd as [|x' l' Hx Hnd']. subst.
  replace (filter (fun z => negb (eqb x z)) (y :: items)) with (y :: items).
  - apply IH. exact Hnd'.
  - symmetry. apply forallb_filter_id. apply forallb_forall.
    intros z Hz. destruct (eqb x z) eqn:E; [|reflexivity].
    apply eqb_eq in E. subst. contradiction.
Qed.

End Unique.

Lemma unique_no_repetition_witness :
  NoDup (unique Z.eqb [3; 1; 3; 2; 1])
  /\ forall x, In x (unique Z.eqb [3; 1; 3; 2; 1]) <-> In x [3; 1; 3; 2; 1].
Proof.
  apply unique_no_repetition. exact Z.eqb_eq.
Defined.

Lemma unique_keeps_first_occurrences_witness :
  unique Z.eqb [3; 1; 3; 2; 1]
  = 3 :: unique Z.eqb (filter (fun y => negb (3 =? y)) [1; 3; 2; 1]).
Proof.
  exact (proj1 (unique_keeps_first_occurrences Z.eqb Z.eqb_eq 3 [1; 3; 2; 1])).
Defined.

(** [s == t] on strings. *)
Definition str_eqb (s t : str) : bool :=
  if list_eq_dec ascii_dec s t then true else false.

Lemma str_eqb_eq s t : str_eqb s t = true <-> s = t.
Proof.
  unfold str_eqb. destruct (list_eq_dec ascii_dec s t); split; congruence.
Qed.

(** The generator [first_per_file(items)] inside
    [GsDiffOpenFileAtHunkCommand.run], run to its end; [seen] holds the
    members of the set of the source. *)
Fixpoint first_per_file_loop (items : list JumpTo) (seen : list str)
  : list JumpTo :=
  match items with
  | [] => []
  | item :: rest =>
      if negb (py_in str_eqb (jt_filename item) seen)
      then item :: first_per_file_loop rest (jt_filename item :: seen)
      else first_per_file_loop rest seen
  end.

Definition first_per_file (items : list JumpTo) : list JumpTo :=
  first_per_file_loop items [].

Lemma first_per_file_loop_spec items :
  forall seen,
    let out := first_per_file_loop items seen in
    NoDup (map jt_filename out)
    /\ (forall f, In f (map jt_filename out)
                  <-> In f (map jt_filename items) /\ ~ In f seen)
    /\ (forall x, In x out ->
                  exists pre post,
                    items = pre ++ x :: post
                    /\ ~ In (jt_filename x) (map jt_filename pre)).
Proof.
  induction items as [|item rest IH]; intros seen; cbv zeta.
  - cbn. split; [constructor|]. split; [tauto|]. intros x [].
  - cbn [first_per_file_loop].
    destruct (py_in str_eqb (jt_filename item) seen) eqn:E; cbn [negb].
    + apply (py_in_In str_eqb str_eqb_eq) in E.
      destruct (IH seen) as (Hn & Hi & Hf). cbv zeta in *.
      split; [exact Hn|]. split.
      * intros f. rewrite Hi. cbn [map In]. split; [tauto|].
        intros [[<-|Hin] Hs]; [contradiction|tauto].
      * intros x Hx. destruct (Hf x Hx) as (pre & post & -> & Hpre).
        exists (item :: pre), post. split; [reflexivity|].
        cbn [map In]. intros [Heq|Hin]; [|exact (Hpre Hin)].
        assert (Hxs : In (jt_filename x) (map jt_filename
                        (first_per_file_loop (pre ++ x :: post) seen)))
          by (apply in_map; exact Hx).
        apply Hi in Hxs. destruct Hxs as [_ Hxs]. apply Hxs.
        rewrite <- Heq. exact E.
    + apply (py_in_not_In str_eqb str_eqb_eq) in E.
      destruct (IH (jt_filename item :: seen)) as (Hn & Hi & Hf).
      cbv zeta in *. cbn [map]. split; [|split].
      * constructor; [|exact Hn].
        intros Hin. apply Hi in Hin. cbn [In] in Hin. tauto.
      * intros f. cbn [In]. rewrite Hi. cbn [In].
        destruct (list_eq_dec ascii_dec (jt_filename item) f) as [<-|Hne];
          tauto.
      * intros x [<-|Hx].
        -- exists [], rest. split; [reflexivity|]. intros [].
        -- destruct (Hf x Hx) as (pre & post & -> & Hpre).
           exists (item :: pre), post. split; [reflexivity|].
           cbn [map In]. intros [Heq|Hin]; [|exact (Hpre Hin)].
           assert (Hxs : In (jt_filename x) (map jt_filename
                     (first_per_file_loop (pre ++ x :: post)
                        (jt_filename item :: seen))))
             by (apply in_map; exact Hx).
           apply Hi in Hxs. cbn [In] in Hxs. tauto.
Qed.

(** X9: [first_per_file] yields one jump per file name: the file names of
    its result are distinct, they are exactly the file names of the items,
    and each item it yields is the first of the items with that name. *)
Theorem first_per_file_yields_first_of_each (items : list JumpTo) :
  NoDup (map jt_filename (first_per_file items))
  /\ (forall f, In f (map jt_filename (first_per_file items))
                <-> In f (map jt_filename items))
  /\ (forall x, In x (first_per_file items) ->
                exists pre post,
                  items = pre ++ x :: post
                  /\ ~ In (jt_filename x) (map jt_filename pre)).
Proof.
  destruct (first_per_file_loop_spec items []) as (Hn & Hi & Hf).
  cbv zeta in *. split; [exact Hn|]. split; [|exact Hf].
  intros f. unfold first_per_file. rewrite Hi. cbn [In]. tauto.
Qed.

Lemma first_per_file_yields_first_of_each_witness :
  exists pre post,
    [mkJumpTo None (lit "a") 1 1; mkJumpTo None (lit "b") 2 1;
     mkJumpTo None (lit "a") 3 1]
    = pre ++ mkJumpTo None (lit "b") 2 1 :: post
    /\ ~ In (jt_filename (mkJumpTo None (lit "b") 2 1)) (map jt_filename pre).
Proof.
  apply (proj2 (proj2 (first_per_file_yields_first_of_each
           [mkJumpTo None (lit "a") 1 1; mkJumpTo None (lit "b") 2 1;
            mkJumpTo None (lit "a") 3 1]))).
  vm_compute. right. left. reflexivity.
Defined.

(** ** Saved selections *)

(** [pickle_sel(sel)] and [unpickle_sel(pickled_sel)] *)
Definition pickle_sel (sel : list Region) : list (Z * Z) :=
  map (fun s => (reg_a s, reg_b s)) sel.

Definition unpickle_sel (pickled_sel : list (Z * Z)) : list Region :=
  map (fun '(a, b) => mkRegion a b) pickled_sel.

(** X10: pickling a selection and unpickling it gives the selection back,
    with the direction of every region ([a] and [b], not begin and end), and
    unpickling and pickling gives the pairs back. *)
Theorem pickle_sel_round_trip (sel : list Region) (pairs : list (Z * Z)) :
  unpickle_sel (pickle_sel sel) = sel
  /\ pickle_sel (unpickle_sel pairs) = pairs.
Proof.
  unfold pickle_sel, unpickle_sel. rewrite !map_map. split.
  - rewrite <- (map_id sel) at 2. apply map_ext. intros [a b]. reflexivity.
  - rewrite <- (map_id pairs) at 2. apply map_ext. intros [a b]. reflexivity.
Qed.

(** ** The commands of the diff view

    The settings of the view that the commands read and write make up the
    state; what a command does to the outside (a git call, a refresh of the
    view, a status message, the cursors it sets) is appended to a log. *)

(** [s.startswith(prefix)] with the rest of [s], and [sub in s]. *)
Fixpoint strip_prefix (prefix s : str) : option str :=
  match prefix, s with
  | [], _ => Some s
  | p :: prefix', c :: s' =>
      if (p =? c)%char then strip_prefix prefix' s' else None
  | _ :: _, [] => None
  end.

Fixpoint contains (sub s : str) : bool :=
  match strip_prefix sub s with
  | Some _ => true
  | None =>
      match s with
      | [] => false
      | _ :: s' => contains sub s'
      end
  end.

Lemma strip_prefix_length prefix s rest :
  strip_prefix prefix s = Some rest ->
  length s = (length prefix + length rest)%nat.
Proof.
  revert s; induction prefix as [|p prefix IH]; intros s; cbn [strip_prefix].
  - intros [= ->]. reflexivity.
  - destruct s as [|c s']; [discriminate|].
    destruct (p =? c)%char; [|discriminate].
    intros E. apply IH in E. cbn [length]. lia.
Qed.

(** [s.split(sep)] for the separator [p :: ps]; [cur] is the part being
    read. *)
Equations? split_loop (p : ascii) (ps : str) (cur : str) (s : str)
    : list str by wf (length s) lt :=
  split_loop p ps cur [] := [cur];
  split_loop p ps cur (c :: s')
    with inspect (strip_prefix (p :: ps) (c :: s')) := {
    | exist _ (Some rest) _ => cur :: split_loop p ps [] rest
    | exist _ None _ => split_loop p ps (cur ++ [c]) s' }.
Proof.
  pose proof (strip_prefix_length (p :: ps) (c :: s') rest e) as E.
  cbn [length] in *. lia.
Qed.

(** [s.split(sep)]; an empty separator is a [ValueError], here [None]. *)
Definition py_split (sep s : str) : option (list str) :=
  match sep with
  | [] => None
  | p :: ps => Some (split_loop p ps [] s)
  end.

(** The truth value of a setting that holds a string or nothing. *)
Definition truthy_setting (x : option str) : bool :=
  match x with
  | Some s => truthy s
  | None => false
  end.

(** [region.begin()], [region.end()], [region.size()] and [r1 == r2] *)
Definition region_begin (r : Region) : Z := Z.min (reg_a r) (reg_b r).
Definition region_end (r : Region) : Z := Z.max (reg_a r) (reg_b r).
Definition region_size (r : Region) : Z := Z.abs (reg_b r - reg_a r).
Definition region_eqb (r1 r2 : Region) : bool :=
  (reg_a r1 =? reg_a r2) && (reg_b r1 =? reg_b r2).

(** The truth value of a region: [sublime.Region] has [__len__] return
    [size()], so an empty region is false. *)
Definition region_truthy (r : Region) : bool := negb (region_size r =? 0).

(** The argument of [set_and_show_cursor]. *)
Inductive cursors : Type :=
| CursorPoint (pt : Z)
| CursorPoints (pts : list Z)
| CursorRegions (regions : list Region).

(** What a command does to the outside. *)
Inductive event : Type :=
| Git (args : list (option str)) (stdin : str)
| Refresh
| StatusMessage (text : str)
| SetAndShowCursor (c : cursors).

(** An entry of [git_savvy.diff_view.history]:
    [(args, patch, pts, in_cached_mode)]. *)
Record HistoryEntry : Type := mkHistoryEntry {
  h_args : list (option str);
  h_stdin : str;
  h_cursors : list Z;
  h_in_cached_mode : bool
}.

Record DiffView : Type := mkDiffView {
  in_cached_mode : bool;
  context_lines : Z;
  show_word_diff : Z;
  base_commit : option str;
  target_commit : option str;
  history : list HistoryEntry;
  just_hunked : str;
  last_cursors : list (Z * Z);
  events : list event
}.

Definition log (e : event) (v : DiffView) : DiffView :=
  mkDiffView (in_cached_mode v) (context_lines v) (show_word_diff v)
    (base_commit v) (target_commit v) (history v) (just_hunked v)
    (last_cursors v) (events v ++ [e]).

Definition set_in_cached_mode (x : bool) (v : DiffView) : DiffView :=
  mkDiffView x (context_lines v) (show_word_diff v)
    (base_commit v) (target_commit v) (history v) (just_hunked v)
    (last_cursors v) (events v).

Definition set_show_word_diff (x : Z) (v : DiffView) : DiffView :=
  mkDiffView (in_cached_mode v) (context_lines v) x
    (base_commit v) (target_commit v) (history v) (just_hunked v)
    (last_cursors v) (events v).

Definition set_commits (base target : option str) (v : DiffView) : DiffView :=
  mkDiffView (in_cached_mode v) (context_lines v) (show_word_diff v)
    base target (history v) (just_hunked v)
    (last_cursors v) (events v).

Definition set_history (x : list HistoryEntry) (v : DiffView) : DiffView :=
  mkDiffView (in_cached_mode v) (context_lines v) (show_word_diff v)
    (base_commit v) (target_commit v) x (just_hunked v)
    (last_cursors v) (events v).

Definition set_just_hunked (x : str) (v : DiffView) : DiffView :=
  mkDiffView (in_cached_mode v) (context_lines v) (show_word_diff v)
    (base_commit v) (target_commit v) (history v) x
    (last_cursors v) (events v).

Definition set_last_cursors (x : list (Z * Z)) (v : DiffView) : DiffView :=
  mkDiffView (in_cached_mode v) (context_lines v) (show_word_diff v)
    (base_commit v) (target_commit v) (history v) (just_hunked v)
    x (events v).

(** How a command ends: it returns, or one of its calls raises. *)
Inductive failure : Type :=
| GitSavvyError
| ListIndexError
| ValueError.

Inductive ended : Type :=
| Done (v : DiffView)
| Raised (f : failure) (v : DiffView).

(** [WORD_DIFF_PATTERNS] *)
Definition WORD_DIFF_PATTERNS : list (option str) :=
  [None;
   Some (lit "[a-zA-Z_\-\x80-\xff]+|[^[:space:]]|[\xc0-\xff][\x80-\xbf]+");
   Some (lit ".")].

Section Commands.

(** Whether [self.git], called with the arguments and the standard input,
    returns ([true]) or raises. *)
Variable git_returns : list (option str) -> str -> bool.

(** [find_hunk_in_view(self.view, patch)] on the refreshed view: a region
    or [None]. *)
Variable find_hunk_in_view : str -> option Region.

(** The call of [self.git] with [args] and [stdin], followed by [rest]. *)
Definition git_then (args : list (option str)) (stdin : str)
    (rest : DiffView -> ended) (v : DiffView) : ended :=
  if git_returns args stdin
  then rest (log (Git args stdin) v)
  else Raised GitSavvyError (log (Git args stdin) v).

(** [GsDiffStageOrResetHunkCommand.apply_patch(patch, pts, reset)] *)
Definition apply_patch_args (reset : bool) (v : DiffView)
  : list (option str) :=
  [Some (lit "apply");
   if reset || in_cached_mode v then Some (lit "-R") else None;
   if in_cached_mode v || negb reset then Some (lit "--cached") else None;
   if context_lines v =? 0 then Some (lit "--unidiff-zero") else None;
   Some (lit "-")].

Definition apply_patch (patch : str) (pts : list Z) (reset : bool)
    (v : DiffView) : ended :=
  let args := apply_patch_args reset v in
  git_then args patch
    (fun v =>
       let history :=
         history v ++ [mkHistoryEntry args patch pts (in_cached_mode v)] in
       Done (log Refresh (set_just_hunked patch (set_history history v))))
    v.

(** [args[1] = "-R" if not args[1] else None]; [None] when the list has no
    index 1. *)
Definition toggle_reverse (args : list (option str))
  : option (list (option str)) :=
  match args with
  | a0 :: a1 :: rest =>
      Some (a0 :: (if negb (truthy_setting a1) then Some (lit "-R") else None)
               :: rest)
  | _ => None
  end.

(** [GsDiffUndo.run] *)
Definition undo (v : DiffView) : ended :=
  match rev (history v) with
  | [] => Done (log (StatusMessage (lit "Undo stack is empty")) v)
  | entry :: earlier =>
      let history := rev earlier in
      match toggle_reverse (h_args entry) with
      | None => Raised ListIndexError v
      | Some args =>
          git_then args (h_stdin entry)
            (fun v =>
               let v := set_just_hunked (h_stdin entry)
                          (set_history history v) in
               let v := log Refresh v in
               if Bool.eqb (in_cached_mode v) (h_in_cached_mode entry)
               then Done (log (SetAndShowCursor
                                 (CursorPoints (h_cursors entry))) v)
               else Done v)
            v
      end
  end.

(** [GsDiffCycleWordDiff.run]; a setting of [False] counts as 0, as it does
    in the sum of the source. *)
Definition cycle_word_diff (v : DiffView) : DiffView :=
  let current_mode := show_word_diff v in
  let next_mode := (current_mode + 1) mod len WORD_DIFF_PATTERNS in
  log Refresh (set_show_word_diff next_mode v).

(** [GsDiffToggleCachedMode.run], with [sel] the selection of the view
    when the command starts. *)
Definition toggle_cached_mode (sel : list Region) (v : DiffView) : ended :=
  let base := base_commit v in
  let target := target_commit v in
  if truthy_setting base && truthy_setting target
  then Done (log Refresh (set_commits target base v))
  else if truthy_setting base
          && match base with
             | Some s => contains (lit "...") s
             | None => false
             end
  then
    match base with
    | Some s =>
        match py_split (lit "...") s with
        | Some [a; b] =>
            Done (log Refresh
                    (set_commits (Some (b ++ lit "..." ++ a)) target v))
        | _ => Raised ValueError v
        end
    | None => Raised ValueError v
    end
  else
    let last := last_cursors v in
    let v := set_last_cursors (pickle_sel sel) v in
    let next_mode := negb (in_cached_mode v) in
    let v := set_in_cached_mode next_mode v in
    let v := log (StatusMessage
                    (lit "Showing " ++
                     (if next_mode then lit "staged" else lit "unstaged")
                     ++ lit " changes")) v in
    let v := log Refresh v in
    let hunked := just_hunked v in
    match
      (if truthy hunked && negb (Nat.eqb (length last) 0)
       then
         let v := set_just_hunked [] v in
         match find_hunk_in_view hunked with
         | Some region =>
             if region_truthy region
             then inl (log (SetAndShowCursor (CursorPoint (reg_a region))) v)
             else inr v
         | None => inr v
         end
       else inr v)
    with
    | inl v => Done v
    | inr v =>
        if negb (Nat.eqb (length last) 0)
        then Done (log (SetAndShowCursor
                          (CursorRegions (unpickle_sel last))) v)
        else Done v
    end.

End Commands.

(** ** What the commands keep *)

Lemma split_loop_nil p ps cur : split_loop p ps cur [] = [cur].
Proof. now simp split_loop. Qed.

Lemma split_loop_hit p ps cur s rest :
  s <> [] ->
  strip_prefix (p :: ps) s = Some rest ->
  split_loop p ps cur s = cur :: split_loop p ps [] rest.
Proof.
  intros Hs Hm. destruct s as [|c s']; [contradiction|].
  simp split_loop.
  destruct (inspect (strip_prefix (p :: ps) (c :: s'))) as [[r|] e]; simpl.
  - assert (r = rest) by congruence. subst r. reflexivity.
  - congruence.
Qed.

Lemma split_loop_miss p ps cur c s' :
  strip_prefix (p :: ps) (c :: s') = None ->
  split_loop p ps cur (c :: s') = split_loop p ps (cur ++ [c]) s'.
Proof.
  intros Hm. simp split_loop.
  destruct (inspect (strip_prefix (p :: ps) (c :: s'))) as [[r|] e]; simpl.
  - congruence.
  - reflexivity.
Qed.

Lemma contains_cons_false sub c s :
  contains sub (c :: s) = false ->
  strip_prefix sub (c :: s) = None /\ contains sub s = false.
Proof.
  cbn [contains]. destruct (strip_prefix sub (c :: s)); [discriminate|].
  intros E. split; [reflexivity|exact E].
Qed.

Lemma split_loop_no_sep p ps s :
  forall cur,
    contains (p :: ps) s = false -> split_loop p ps cur s = [cur ++ s].
Proof.
  induction s as [|c s' IH]; intros cur Hno.
  - rewrite split_loop_nil, app_nil_r. reflexivity.
  - apply contains_cons_false in Hno as [Hhead Hrest].
    rewrite (split_loop_miss _ _ _ _ _ Hhead), (IH _ Hrest).
    rewrite <- app_assoc. reflexivity.
Qed.

Lemma strip_prefix_app prefix rest :
  strip_prefix prefix (prefix ++ rest) = Some rest.
Proof.
  induction prefix as [|p prefix IH]; [destruct rest; reflexivity|].
  cbn [app strip_prefix]. rewrite Ascii.eqb_refl. exact IH.
Qed.

Lemma contains_app sub a b : contains sub (a ++ sub ++ b) = true.
Proof.
  induction a as [|c a IH].
  - cbn [app]. destruct (sub ++ b) eqn:E; cbn [contains];
      rewrite <- E, strip_prefix_app; reflexivity.
  - cbn [app contains].
    destruct (strip_prefix sub (c :: a ++ sub ++ b)); [reflexivity|exact IH].
Qed.

(** A text that does not end in a dot. *)
Definition no_dot_at_end (s : str) : Prop :=
  forall s0, s <> s0 ++ ["."%char].

(** A text without ["..."] inside and without a dot at its end, put before
    ["..."], is what [split("...")] cuts off first. *)
Lemma split_loop_dots a :
  forall cur b,
    contains (lit "...") a = false ->
    no_dot_at_end a ->
    contains (lit "...") b = false ->
    split_loop "." (lit "..") cur (a ++ lit "..." ++ b) = [cur ++ a; b].
Proof.
  induction a as [|c a IH]; intros cur b Ha Hend Hb.
  - cbn [app]. rewrite (split_loop_hit _ _ _ _ b); [|discriminate|reflexivity].
    rewrite (split_loop_no_sep _ _ _ _ Hb), app_nil_r. reflexivity.
  - apply contains_cons_false in Ha as [Hhead Hrest].
    assert (Hmiss : strip_prefix (lit "...") (c :: a ++ lit "..." ++ b) = None).
    { revert Hhead. cbn [lit list_ascii_of_string strip_prefix app].
      destruct ("." =? c)%char eqn:E1; [|reflexivity].
      apply Ascii.eqb_eq in E1. subst c.
      destruct a as [|c2 a]; [exfalso; exact (Hend [] eq_refl)|].
      cbn [app]. destruct ("." =? c2)%char eqn:E2; [|reflexivity].
      apply Ascii.eqb_eq in E2. subst c2.
      destruct a as [|c3 a]; [exfalso; exact (Hend ["."%char] eq_refl)|].
      cbn [app]. destruct ("." =? c3)%char eqn:E3; [|reflexivity].
      discriminate. }
    change ((c :: a) ++ lit "..." ++ b) with (c :: a ++ lit "..." ++ b).
    rewrite (split_loop_miss _ _ _ _ _ Hmiss).
    rewrite (IH _ _ Hrest); [|intros s0 E; apply (Hend (c :: s0));
                               rewrite E; reflexivity|exact Hb].
    rewrite <- app_assoc. reflexivity.
Qed.

Lemma truthy_app_dots a b : truthy (a ++ lit "..." ++ b) = true.
Proof. destruct a; reflexivity. Qed.

Section CommandFacts.

Variable git_returns : list (option str) -> str -> bool.
Variable find_hunk_in_view : str -> option Region.

(** X11: after [apply_patch], [undo] runs git once more on the same patch
    with the same arguments but the reverse flag flipped, puts the history
    back to what it was before the patch, and sets the cursors to the
    points the patch was applied at. *)
Theorem undo_reverts_apply_patch (patch : str) (pts : list Z) (reset : bool)
    (v : DiffView) :
  let args := apply_patch_args reset v in
  let flipped :=
    [Some (lit "apply");
     if reset || in_cached_mode v then None else Some (lit "-R");
     if in_cached_mode v || negb reset then Some (lit "--cached") else None;
     if context_lines v =? 0 then Some (lit "--unidiff-zero") else None;
     Some (lit "-")] in
  git_returns args patch = true ->
  git_returns flipped patch = true ->
  exists v1 v2,
    apply_patch git_returns patch pts reset v = Done v1
    /\ history v1
       = history v ++ [mkHistoryEntry args patch pts (in_cached_mode v)]
    /\ undo git_returns v1 = Done v2
    /\ history v2 = history v
    /\ just_hunked v2 = patch
    /\ in_cached_mode v2 = in_cached_mode v
    /\ events v2
       = events v ++ [Git args patch; Refresh; Git flipped patch; Refresh;
                      SetAndShowCursor (CursorPoints pts)].
Proof.
  cbv zeta. intros Hgit1 Hgit2.
  unfold apply_patch. cbv zeta. unfold git_then. rewrite Hgit1.
  eexists. eexists. split; [reflexivity|].
  split; [reflexivity|].
  unfold undo. cbn [history log set_just_hunked set_history].
  rewrite rev_unit. cbn [h_args h_stdin h_cursors h_in_cached_mode].
  assert (Htoggle : toggle_reverse (apply_patch_args reset v)
    = Some [Some (lit "apply");
            if reset || in_cached_mode v then None else Some (lit "-R");
            if in_cached_mode v || negb reset
            then Some (lit "--cached") else None;
            if context_lines v =? 0 then Some (lit "--unidiff-zero") else None;
            Some (lit "-")]).
  { unfold apply_patch_args, toggle_reverse.
    destruct (reset || in_cached_mode v); reflexivity. }
  rewrite Htoggle. unfold git_then. rewrite Hgit2.
  cbn [in_cached_mode log set_just_hunked set_history].
  rewrite Bool.eqb_reflx. rewrite rev_involutive.
  split; [reflexivity|].
  cbn [history just_hunked in_cached_mode events].
  repeat split. cbn [events log set_just_hunked set_history].
  rewrite <- !app_assoc. reflexivity.
Qed.

(** X12: a git call that raises leaves the undo history and
    [just_hunked] as they were, in [apply_patch] and in [undo] alike; and
    [undo] on an empty history calls nothing but the status bar. *)
Theorem failed_git_keeps_history (patch : str) (pts : list Z) (reset : bool)
    (v : DiffView) :
  (git_returns (apply_patch_args reset v) patch = false ->
   exists v', apply_patch git_returns patch pts reset v
              = Raised GitSavvyError v'
              /\ history v' = history v /\ just_hunked v' = just_hunked v)
  /\ (forall earlier entry args,
         history v = earlier ++ [entry] ->
         toggle_reverse (h_args entry) = Some args ->
         git_returns args (h_stdin entry) = false ->
         exists v', undo git_returns v = Raised GitSavvyError v'
                    /\ history v' = history v
                    /\ just_hunked v' = just_hunked v)
  /\ (history v = [] ->
      undo git_returns v
      = Done (log (StatusMessage (lit "Undo stack is empty")) v)).
Proof.
  split; [|split].
  - intros Hgit. unfold apply_patch. cbv zeta. unfold git_then.
    rewrite Hgit. eexists. split; [reflexivity|]. split; reflexivity.
  - intros earlier entry args Hh Ht Hgit. unfold undo.
    rewrite Hh, rev_unit, Ht. unfold git_then. rewrite Hgit.
    eexists. split; [reflexivity|]. split; [|reflexivity].
    cbn [history log]. exact Hh.
  - intros Hh. unfold undo. rewrite Hh. reflexivity.
Qed.

(** X13: [apply_patch] never applies a patch forward to the working tree:
    its arguments always hold [-R] or [--cached]; in cached mode they are
    the same whether or not [reset] is set; and [--unidiff-zero] is passed
    exactly when the view shows no context lines. *)
Theorem apply_patch_args_table (reset : bool) (v : DiffView) :
  (In (Some (lit "-R")) (apply_patch_args reset v)
   \/ In (Some (lit "--cached")) (apply_patch_args reset v))
  /\ (in_cached_mode v = true ->
      apply_patch_args reset v = apply_patch_args (negb reset) v)
  /\ (In (Some (lit "--unidiff-zero")) (apply_patch_args reset v)
      <-> context_lines v = 0).
Proof.
  unfold apply_patch_args. split; [|split].
  - destruct reset, (in_cached_mode v); cbn; auto 10.
  - intros ->. destruct reset; reflexivity.
  - destruct (context_lines v =? 0) eqn:E.
    + apply Z.eqb_eq in E. split; [intros _; exact E|].
      intros _. cbn. auto 10.
    + apply Z.eqb_neq in E. split; [|intros; contradiction].
      destruct reset, (in_cached_mode v); cbn;
        intros H; repeat (destruct H as [H|H]; try discriminate H);
        destruct H.
Qed.

End CommandFacts.

Lemma undo_reverts_apply_patch_witness :
  let v := mkDiffView false 3 0 None None [] [] [] [] in
  exists v1 v2,
    apply_patch (fun _ _ => true) (lit "@@ -1 +1 @@") [7] false v = Done v1
    /\ history v1
       = history v ++ [mkHistoryEntry (apply_patch_args false v)
                         (lit "@@ -1 +1 @@") [7] (in_cached_mode v)]
    /\ undo (fun _ _ => true) v1 = Done v2
    /\ history v2 = history v
    /\ just_hunked v2 = lit "@@ -1 +1 @@"
    /\ in_cached_mode v2 = in_cached_mode v
    /\ events v2
       = events v
         ++ [Git (apply_patch_args false v) (lit "@@ -1 +1 @@"); Refresh;
             Git [Some (lit "apply"); Some (lit "-R"); Some (lit "--cached");
                  None; Some (lit "-")] (lit "@@ -1 +1 @@");
             Refresh; SetAndShowCursor (CursorPoints [7])].
Proof.
  exact (undo_reverts_apply_patch (fun _ _ => true) (lit "@@ -1 +1 @@") [7]
           false (mkDiffView false 3 0 None None [] [] [] []) eq_refl eq_refl).
Defined.

Lemma failed_git_keeps_history_witness :
  let v := mkDiffView false 3 0 None None [] [] [] [] in
  exists v', apply_patch (fun _ _ => false) (lit "@@ -1 +1 @@") [7] false v
             = Raised GitSavvyError v'
             /\ history v' = history v /\ just_hunked v' = just_hunked v.
Proof.
  exact (proj1 (failed_git_keeps_history (fun _ _ => false)
                  (lit "@@ -1 +1 @@") [7] false
                  (mkDiffView false 3 0 None None [] [] [] [])) eq_refl).
Defined.

Lemma apply_patch_args_table_witness :
  let v := mkDiffView true 0 0 None None [] [] [] [] in
  apply_patch_args true v = apply_patch_args false v.
Proof.
  exact (proj1 (proj2 (apply_patch_args_table true
                         (mkDiffView true 0 0 None None [] [] [] [])))
           eq_refl).
Defined.

Lemma unpickle_pickle (sel : list Region) : unpickle_sel (pickle_sel sel) = sel.
Proof.
  unfold pickle_sel, unpickle_sel. rewrite map_map.
  rewrite <- (map_id sel) at 2. apply map_ext. intros [a b]. reflexivity.
Qed.

(** X14: whatever the setting held before, after [cycle_word_diff] it is an
    index of [WORD_DIFF_PATTERNS], so the lookup in [run_impl] finds an
    entry; from an index of the table three cycles lead back to it; and
    word diff is off after a cycle exactly when the old value plus 1 is a
    multiple of 3. *)
Theorem cycle_word_diff_stays_in_table (v : DiffView) :
  let mode := show_word_diff (cycle_word_diff v) in
  0 <= mode < len WORD_DIFF_PATTERNS
  /\ (exists pattern, py_index WORD_DIFF_PATTERNS mode = Some pattern)
  /\ (0 <= show_word_diff v < len WORD_DIFF_PATTERNS ->
      show_word_diff (cycle_word_diff (cycle_word_diff (cycle_word_diff v)))
      = show_word_diff v)
  /\ (py_index WORD_DIFF_PATTERNS mode = Some None
      <-> (show_word_diff v + 1) mod 3 = 0).
Proof.
  cbv zeta. unfold cycle_word_diff. cbv zeta.
  cbn [show_word_diff log set_show_word_diff].
  change (len WORD_DIFF_PATTERNS) with 3.
  pose proof (Z.mod_pos_bound (show_word_diff v + 1) 3 ltac:(lia)) as Hm.
  split; [exact Hm|].
  assert (Hcases : (show_word_diff v + 1) mod 3 = 0
                   \/ (show_word_diff v + 1) mod 3 = 1
                   \/ (show_word_diff v + 1) mod 3 = 2) by lia.
  split; [|split].
  - destruct Hcases as [-> | [-> | ->] ]; eexists; reflexivity.
  - intros Hv.
    assert (Hv' : show_word_diff v = 0 \/ show_word_diff v = 1
                  \/ show_word_diff v = 2) by lia.
    destruct Hv' as [-> | [-> | ->] ]; reflexivity.
  - destruct Hcases as [E|[E|E]]; rewrite E; split; intros H;
      try reflexivity; try lia; discriminate H.
Qed.

Lemma cycle_word_diff_stays_in_table_witness :
  let v := mkDiffView false 3 2 None None [] [] [] [] in
  show_word_diff (cycle_word_diff (cycle_word_diff (cycle_word_diff v)))
  = show_word_diff v.
Proof.
  apply (proj1 (proj2 (proj2 (cycle_word_diff_stays_in_table
           (mkDiffView false 3 2 None None [] [] [] []))))).
  change (0 <= 2 < 3). lia.
Defined.

Section ToggleFacts.

Variable find_hunk_in_view : str -> option Region.

(** X15: with a base and a target commit the toggle swaps the two, leaves
    the cached mode alone, and a second toggle puts them back. *)
Theorem toggle_swaps_base_and_target (sel sel' : list Region) (v : DiffView)
    (base target : str) :
  base_commit v = Some base ->
  target_commit v = Some target ->
  base <> [] ->
  target <> [] ->
  exists v1 v2,
    toggle_cached_mode find_hunk_in_view sel v = Done v1
    /\ base_commit v1 = Some target
    /\ target_commit v1 = Some base
    /\ in_cached_mode v1 = in_cached_mode v
    /\ toggle_cached_mode find_hunk_in_view sel' v1 = Done v2
    /\ base_commit v2 = Some base
    /\ target_commit v2 = Some target
    /\ events v2 = events v ++ [Refresh; Refresh].
Proof.
  destruct v as [cm cl sw b0 t0 hist jh lastc ev]. cbn [base_commit target_commit].
  intros -> -> Hb Ht.
  assert (Tb : truthy base = true) by (destruct base; [contradiction|reflexivity]).
  assert (Tt : truthy target = true)
    by (destruct target; [contradiction|reflexivity]).
  unfold toggle_cached_mode.
  cbn [base_commit target_commit truthy_setting log set_commits
       in_cached_mode context_lines show_word_diff history just_hunked
       last_cursors events].
  rewrite Tb, Tt. cbn [andb].
  eexists. eexists. split; [reflexivity|].
  cbn [base_commit target_commit truthy_setting log set_commits
       in_cached_mode context_lines show_word_diff history just_hunked
       last_cursors events].
  rewrite Tb, Tt. cbn [andb].
  repeat (split; [reflexivity|]).
  cbn [events log set_commits]. rewrite <- app_assoc. reflexivity.
Qed.

(** X16: with a base of the form [a...b] and no target the toggle turns
    the base into [b...a], and a second toggle gives [a...b] again; [a] and
    [b] hold no ["..."] and do not end in a dot. *)
Theorem toggle_flips_symmetric_difference (sel sel' : list Region)
    (v : DiffView) (a b : str) :
  base_commit v = Some (a ++ lit "..." ++ b) ->
  truthy_setting (target_commit v) = false ->
  contains (lit "...") a = false -> no_dot_at_end a ->
  contains (lit "...") b = false -> no_dot_at_end b ->
  exists v1 v2,
    toggle_cached_mode find_hunk_in_view sel v = Done v1
    /\ base_commit v1 = Some (b ++ lit "..." ++ a)
    /\ target_commit v1 = target_commit v
    /\ toggle_cached_mode find_hunk_in_view sel' v1 = Done v2
    /\ base_commit v2 = Some (a ++ lit "..." ++ b)
    /\ in_cached_mode v2 = in_cached_mode v.
Proof.
  destruct v as [cm cl sw base t hist jh lastc ev].
  cbn [base_commit target_commit in_cached_mode].
  intros -> Ht Ha Hae Hb Hbe.
  assert (Hstep : forall x y ev',
    contains (lit "...") x = false -> no_dot_at_end x ->
    contains (lit "...") y = false ->
    forall s,
      toggle_cached_mode find_hunk_in_view s
        (mkDiffView cm cl sw (Some (x ++ lit "..." ++ y)) t hist jh lastc ev')
      = Done (mkDiffView cm cl sw (Some (y ++ lit "..." ++ x)) t hist jh lastc
                (ev' ++ [Refresh]))).
  { intros x y ev' Hx Hxe Hy s. unfold toggle_cached_mode.
    cbn [base_commit target_commit truthy_setting].
    rewrite Ht, truthy_app_dots, contains_app. cbn [andb].
    unfold py_split.
    change (lit "...") with ("."%char :: lit "..") at 1.
    cbv iota.
    change ("."%char :: lit "..") with (lit "...").
    rewrite (split_loop_dots x [] y Hx Hxe Hy). cbn [app].
    reflexivity. }
  eexists. eexists. split; [apply Hstep; assumption|].
  cbn [base_commit target_commit]. split; [reflexivity|].
  split; [reflexivity|].
  split; [apply Hstep; assumption|].
  cbn [base_commit in_cached_mode]. split; reflexivity.
Qed.

(** X17: without commits to flip and with no hunk just staged, the toggle
    switches the cached mode and saves the selection; the next toggle
    switches back and sets the cursors to the selection saved by the
    first. *)
Theorem toggle_cached_mode_restores_cursors (sel1 sel2 : list Region)
    (v : DiffView) :
  truthy_setting (base_commit v) = false ->
  just_hunked v = [] ->
  sel1 <> [] ->
  exists v1 v2 message,
    toggle_cached_mode find_hunk_in_view sel1 v = Done v1
    /\ in_cached_mode v1 = negb (in_cached_mode v)
    /\ last_cursors v1 = pickle_sel sel1
    /\ toggle_cached_mode find_hunk_in_view sel2 v1 = Done v2
    /\ in_cached_mode v2 = in_cached_mode v
    /\ last_cursors v2 = pickle_sel sel2
    /\ events v2
       = events v1 ++ [StatusMessage message; Refresh;
                       SetAndShowCursor (CursorRegions sel1)].
Proof.
  destruct v as [cm cl sw base t hist jh lastc ev].
  cbn [base_commit just_hunked in_cached_mode].
  intros Hbase -> Hsel.
  assert (Hlen : Nat.eqb (length (pickle_sel sel1)) 0 = false).
  { unfold pickle_sel. rewrite length_map.
    destruct sel1; [contradiction|reflexivity]. }
  unfold toggle_cached_mode.
  cbn [base_commit target_commit just_hunked in_cached_mode last_cursors
       context_lines show_word_diff history events
       log set_last_cursors set_in_cached_mode set_just_hunked truthy andb].
  rewrite Hbase. cbn [andb].
  destruct (negb (Nat.eqb (length lastc) 0)).
  - eexists. eexists. eexists. split; [reflexivity|].
    cbn [base_commit target_commit just_hunked in_cached_mode last_cursors
         context_lines show_word_diff history events
         log set_last_cursors set_in_cached_mode set_just_hunked truthy andb].
    rewrite Hbase, Hlen, unpickle_pickle, Bool.negb_involutive. cbn [andb negb].
    repeat (split; [reflexivity|]).
    cbn [events log set_last_cursors set_in_cached_mode set_just_hunked].
    rewrite <- !app_assoc. reflexivity.
  - eexists. eexists. eexists. split; [reflexivity|].
    cbn [base_commit target_commit just_hunked in_cached_mode last_cursors
         context_lines show_word_diff history events
         log set_last_cursors set_in_cached_mode set_just_hunked truthy andb].
    rewrite Hbase, Hlen, unpickle_pickle, Bool.negb_involutive. cbn [andb negb].
    repeat (split; [reflexivity|]).
    cbn [events log set_last_cursors set_in_cached_mode set_just_hunked].
    rewrite <- !app_assoc. reflexivity.
Qed.

(** X18: a hunk that was just staged is remembered over the first switch
    of the cached mode (when no cursors are saved yet) and used up by the
    next one, which puts the cursor on that hunk if [find_hunk_in_view]
    gives a region that is not empty, and on the saved cursors otherwise
    (also when the region it gives is empty). *)
Theorem toggle_uses_just_hunked_once (sel : list Region) (v : DiffView) :
  truthy_setting (base_commit v) = false ->
  (last_cursors v = [] ->
   exists v1 message,
     toggle_cached_mode find_hunk_in_view sel v = Done v1
     /\ just_hunked v1 = just_hunked v
     /\ events v1 = events v ++ [StatusMessage message; Refresh])
  /\ (last_cursors v <> [] ->
      just_hunked v <> [] ->
      exists v1 message,
        toggle_cached_mode find_hunk_in_view sel v = Done v1
        /\ just_hunked v1 = []
        /\ events v1
           = events v
             ++ [StatusMessage message; Refresh;
                 SetAndShowCursor
                   match find_hunk_in_view (just_hunked v) with
                   | Some region =>
                       if region_size region =? 0
                       then CursorRegions (unpickle_sel (last_cursors v))
                       else CursorPoint (reg_a region)
                   | None => CursorRegions (unpickle_sel (last_cursors v))
                   end]).
Proof.
  destruct v as [cm cl sw base t hist jh lastc ev].
  cbn [base_commit just_hunked last_cursors events].
  intros Hbase. split.
  - intros ->. unfold toggle_cached_mode.
    cbn [base_commit target_commit just_hunked in_cached_mode last_cursors
         context_lines show_word_diff history events
         log set_last_cursors set_in_cached_mode set_just_hunked].
    rewrite Hbase. cbn [andb length Nat.eqb negb].
    rewrite Bool.andb_false_r.
    eexists. eexists. split; [reflexivity|].
    cbn [just_hunked events log set_last_cursors set_in_cached_mode
         set_just_hunked].
    split; [reflexivity|].
    rewrite <- app_assoc. reflexivity.
  - intros Hlast Hjh.
    assert (Hlen : negb (Nat.eqb (length lastc) 0) = true)
      by (destruct lastc; [contradiction|reflexivity]).
    assert (Htr : truthy jh = true) by (destruct jh; [contradiction|reflexivity]).
    unfold toggle_cached_mode.
    cbn [base_commit target_commit just_hunked in_cached_mode last_cursors
         context_lines show_word_diff history events
         log set_last_cursors set_in_cached_mode set_just_hunked].
    rewrite Hbase, Hlen, Htr. cbn [andb].
    unfold region_truthy.
    destruct (find_hunk_in_view jh) as [region|];
      [destruct (region_size region =? 0); cbn [negb]|];
      (eexists; eexists; split; [reflexivity|];
       cbn [just_hunked events log set_last_cursors set_in_cached_mode
            set_just_hunked];
       split; [reflexivity|];
       rewrite <- !app_assoc; reflexivity).
Qed.

End ToggleFacts.

Lemma toggle_swaps_base_and_target_witness :
  let v := mkDiffView false 3 0 (Some (lit "main")) (Some (lit "dev"))
             [] [] [] [] in
  exists v1 v2,
    toggle_cached_mode (fun _ => None) [] v = Done v1
    /\ base_commit v1 = Some (lit "dev")
    /\ target_commit v1 = Some (lit "main")
    /\ in_cached_mode v1 = in_cached_mode v
    /\ toggle_cached_mode (fun _ => None) [] v1 = Done v2
    /\ base_commit v2 = Some (lit "main")
    /\ target_commit v2 = Some (lit "dev")
    /\ events v2 = events v ++ [Refresh; Refresh].
Proof.
  apply (toggle_swaps_base_and_target (fun _ => None) [] []
           (mkDiffView false 3 0 (Some (lit "main")) (Some (lit "dev"))
              [] [] [] [])
           (lit "main") (lit "dev")).
  - reflexivity.
  - reflexivity.
  - discriminate.
  - discriminate.
Defined.

Lemma no_dot_at_end_by_last (s : str) :
  last s "x"%char <> "."%char -> no_dot_at_end s.
Proof.
  intros Hl s0 E. apply Hl. rewrite E. apply last_last.
Qed.

Lemma toggle_flips_symmetric_difference_witness :
  let v := mkDiffView false 3 0 (Some (lit "v1.0" ++ lit "..." ++ lit "main"))
             None [] [] [] [] in
  exists v1 v2,
    toggle_cached_mode (fun _ => None) [] v = Done v1
    /\ base_commit v1 = Some (lit "main" ++ lit "..." ++ lit "v1.0")
    /\ target_commit v1 = target_commit v
    /\ toggle_cached_mode (fun _ => None) [] v1 = Done v2
    /\ base_commit v2 = Some (lit "v1.0" ++ lit "..." ++ lit "main")
    /\ in_cached_mode v2 = in_cached_mode v.
Proof.
  apply (toggle_flips_symmetric_difference (fun _ => None) [] []
           (mkDiffView false 3 0
              (Some (lit "v1.0" ++ lit "..." ++ lit "main")) None [] [] [] [])
           (lit "v1.0") (lit "main")).
  - reflexivity.
  - reflexivity.
  - reflexivity.
  - apply no_dot_at_end_by_last. vm_compute. discriminate.
  - reflexivity.
  - apply no_dot_at_end_by_last. vm_compute. discriminate.
Defined.

Lemma toggle_cached_mode_restores_cursors_witness :
  let v := mkDiffView false 3 0 None None [] [] [] [] in
  exists v1 v2 message,
    toggle_cached_mode (fun _ => None) [mkRegion 5 9] v = Done v1
    /\ in_cached_mode v1 = negb (in_cached_mode v)
    /\ last_cursors v1 = pickle_sel [mkRegion 5 9]
    /\ toggle_cached_mode (fun _ => None) [mkRegion 0 0] v1 = Done v2
    /\ in_cached_mode v2 = in_cached_mode v
    /\ last_cursors v2 = pickle_sel [mkRegion 0 0]
    /\ events v2
       = events v1 ++ [StatusMessage message; Refresh;
                       SetAndShowCursor (CursorRegions [mkRegion 5 9])].
Proof.
  apply (toggle_cached_mode_restores_cursors (fun _ => None)
           [mkRegion 5 9] [mkRegion 0 0]
           (mkDiffView false 3 0 None None [] [] [] [])).
  - reflexivity.
  - reflexivity.
  - discriminate.
Defined.

Lemma toggle_uses_just_hunked_once_witness :
  let v := mkDiffView false 3 0 None None [] (lit "@@ -1 +1 @@") [(4, 4)] [] in
  (exists v1 message,
      toggle_cached_mode (fun _ => Some (mkRegion 30 41)) [] v = Done v1
      /\ just_hunked v1 = []
      /\ events v1
         = events v
           ++ [StatusMessage message; Refresh;
               SetAndShowCursor (CursorPoint 30)])
  /\ (exists v1 message,
         toggle_cached_mode (fun _ => Some (mkRegion 30 30)) [] v = Done v1
         /\ just_hunked v1 = []
         /\ events v1
            = events v
              ++ [StatusMessage message; Refresh;
                  SetAndShowCursor (CursorRegions [mkRegion 4 4])]).
Proof.
  split.
  - apply (proj2 (toggle_uses_just_hunked_once
                    (fun _ => Some (mkRegion 30 41)) []
                    (mkDiffView false 3 0 None None [] (lit "@@ -1 +1 @@")
                       [(4, 4)] [])
                    eq_refl)); discriminate.
  - apply (proj2 (toggle_uses_just_hunked_once
                    (fun _ => Some (mkRegion 30 30)) []
                    (mkDiffView false 3 0 None None [] (lit "@@ -1 +1 @@")
                       [(4, 4)] [])
                    eq_refl)); discriminate.
Defined.

(** X19: the fuzzy search tries at most half the lines (rounded up): the
    candidates of [n] lines are [(n + 1) / 2] many, the [k]-th has
    [n - 2k] lines, and none is empty. *)
Theorem shrink_list_sym_candidates {T : Type} (lst : list T) :
  length (shrink_list_sym lst) = ((length lst + 1) / 2)%nat
  /\ forall k cand,
       nth_error (shrink_list_sym lst) k = Some cand ->
       length cand = (length lst - 2 * k)%nat /\ cand <> [].
Proof.
  assert (Hnth : forall k cand,
    nth_error (shrink_list_sym lst) k = Some cand ->
    (2 * k < length lst)%nat /\ length cand = (length lst - 2 * k)%nat).
  { intros k cand. rewrite shrink_list_sym_nth.
    destruct (2 * k <? length lst)%nat eqn:E; [|discriminate].
    apply Nat.ltb_lt in E. intros [= <-]. split; [exact E|].
    replace (len lst - Z.of_nat k) with (Z.of_nat (length lst - k))
      by (unfold len; lia).
    rewrite py_slice_nat by lia.
    rewrite length_firstn, length_skipn. lia. }
  split.
  - pose proof (Nat.div_mod_eq (length lst + 1) 2) as Hd.
    pose proof (Nat.mod_upper_bound (length lst + 1) 2 ltac:(lia)) as Hm.
    destruct (Nat.lt_trichotomy (length (shrink_list_sym lst))
                ((length lst + 1) / 2)) as [Hlt|[Heq|Hgt]]; [|exact Heq|].
    + exfalso.
      assert (Hnone : nth_error (shrink_list_sym lst)
                        (length (shrink_list_sym lst)) = None)
        by (apply nth_error_None; lia).
      rewrite shrink_list_sym_nth in Hnone.
      destruct (2 * length (shrink_list_sym lst) <? length lst)%nat eqn:E;
        [discriminate|].
      apply Nat.ltb_ge in E. lia.
    + exfalso.
      destruct (nth_error (shrink_list_sym lst) ((length lst + 1) / 2))
        as [cand|] eqn:E.
      * apply Hnth in E. lia.
      * apply nth_error_None in E. lia.
  - intros k cand Hk. destruct (Hnth k cand Hk) as [Hlt Hlen].
    split; [exact Hlen|]. intros ->. cbn [length] in Hlen. lia.
Qed.

Lemma shrink_list_sym_candidates_witness :
  length [3%nat; 4%nat; 5%nat] = (7 - 2 * 2)%nat /\ [3%nat; 4%nat; 5%nat] <> [].
Proof.
  apply (proj2 (shrink_list_sym_candidates
                  [1%nat; 2%nat; 3%nat; 4%nat; 5%nat; 6%nat; 7%nat])).
  reflexivity.
Defined.

(** ** From the cursor to a place in the file, in word-diff mode *)

(** [sum(xs)] *)
Definition py_sum (xs : list Z) : Z := fold_right Z.add 0 xs.

Section WordDiffJump.

(** The view: [view.get_regions('git-savvy-removed-bold')], [view.line]
    and [view.rowcol]; the parsed diff: [diff.head_and_hunk_for_pt],
    [hunk.content().a], [hunk.header().from_line_start()],
    [header.from_filename], [diff.commit_for_hunk] and
    [commit_header.commit_hash]. *)
Variables Header CommitHeader ViewHunk : Type.
Variable removed_bold : list Region.
Variable view_line : Z -> Region.
Variable view_rowcol : Z -> Z * Z.
Variable head_and_hunk_for_pt : Z -> option (Header * ViewHunk).
Variable content_a : ViewHunk -> Z.
Variable header_from_line_start : ViewHunk -> option Z.
Variable from_filename : Header -> option str.
Variable commit_for_hunk : ViewHunk -> option CommitHeader.
Variable commit_hash : CommitHeader -> option str.

(** The "deletion" regions of the hunk up to the cursor, each cut at the
    cursor. *)
Definition removed_regions_before_pt (content_start pt : Z) : list Region :=
  map (fun region =>
         mkRegion (region_begin region) (Z.min (region_end region) pt))
      (filter (fun region =>
                 (content_start <=? region_begin region)
                 && (region_begin region <? pt))
              removed_bold).

(** The completely removed lines among them; the sum over booleans of the
    source is the number of regions that pass the test. *)
Definition removed_lines_before_pt (content_start pt : Z) : Z :=
  len (filter (fun region =>
                 region_eqb region (view_line (region_begin region))
                 && negb (region_end region =? pt))
              (removed_regions_before_pt content_start pt)).

Definition removed_chars_before_pt (content_start pt : Z) : Z :=
  let line_start := region_begin (view_line pt) in
  py_sum (map region_size
            (filter (fun region =>
                       (line_start <=? region_begin region)
                       && (region_begin region <? pt))
                    (removed_regions_before_pt content_start pt))).

(** The relative row and the column of the cursor, [(0, 0)] when the
    cursor is above the content. *)
Definition relative_rowcol_in_content (content_start pt : Z) : Z * Z :=
  let '(head_row, _) := view_rowcol content_start in
  let '(pt_row, col) := view_rowcol pt in
  let rel_row := pt_row - head_row in
  if rel_row <? 0 then (0, 0) else (rel_row, col).

Definition jump_position_to_file_for_word_diff_mode (pt : Z)
  : option JumpTo :=
  match head_and_hunk_for_pt pt with
  | None => None
  | Some (header, hunk) =>
      let content_start := content_a hunk in
      let removed_lines := removed_lines_before_pt content_start pt in
      let removed_chars := removed_chars_before_pt content_start pt in
      let '(rel_row, col) := relative_rowcol_in_content content_start pt in
      match header_from_line_start hunk with
      | None => None
      | Some from_start =>
          let row := from_start + rel_row in
          match from_filename header with
          | Some filename =>
              if truthy filename
              then
                let row := row - removed_lines in
                let col := col + 1 - removed_chars in
                let commit :=
                  match commit_for_hunk hunk with
                  | Some ch => commit_hash ch
                  | None => None
                  end in
                Some (mkJumpTo commit filename row col)
              else None
          | None => None
          end
      end
  end.

Lemma py_sum_sizes_nonneg (rs : list Region) : 0 <= py_sum (map region_size rs).
Proof.
  unfold py_sum. induction rs as [|r rs IH]; [cbn; lia|].
  cbn [map fold_right].
  assert (0 <= region_size r) by (unfold region_size; lia). lia.
Qed.

Lemma filter_none {A : Type} (f : A -> bool) (l : list A) :
  (forall x, In x l -> f x = false) -> filter f l = [].
Proof.
  induction l as [|x l IH]; intros Hf; [reflexivity|].
  cbn [filter]. rewrite (Hf x (or_introl eq_refl)).
  apply IH. intros y Hy. apply Hf. right. exact Hy.
Qed.

Lemma removed_counts_bounds (content_start pt : Z) :
  0 <= removed_lines_before_pt content_start pt <= len removed_bold
  /\ 0 <= removed_chars_before_pt content_start pt.
Proof.
  split.
  - unfold removed_lines_before_pt, removed_regions_before_pt, len.
    match goal with
    | |- context [filter ?f (map ?g (filter ?h removed_bold))] =>
        pose proof (filter_length_le f (map g (filter h removed_bold))) as H1;
        pose proof (filter_length_le h removed_bold) as H2
    end.
    rewrite length_map in H1. lia.
  - unfold removed_chars_before_pt. cbv zeta. apply py_sum_sizes_nonneg.
Qed.

(** X20: in word-diff mode removed text only moves the target up and to
    the left: the row is at most the start line plus the relative row and
    at least that minus the number of removed regions of the view, and the
    column is at most the view column plus 1. *)
Theorem word_diff_jump_bounds (pt : Z) (jt : JumpTo) (header : Header)
    (hunk : ViewHunk) (from_start : Z) :
  head_and_hunk_for_pt pt = Some (header, hunk) ->
  header_from_line_start hunk = Some from_start ->
  jump_position_to_file_for_word_diff_mode pt = Some jt ->
  let rowcol := relative_rowcol_in_content (content_a hunk) pt in
  from_start + fst rowcol - len removed_bold <= jt_row jt
  /\ jt_row jt <= from_start + fst rowcol
  /\ jt_col jt <= snd rowcol + 1
  /\ 0 <= fst rowcol.
Proof.
  intros Hhh Hfs. unfold jump_position_to_file_for_word_diff_mode.
  rewrite Hhh. cbv zeta.
  destruct (removed_counts_bounds (content_a hunk) pt) as [Hl Hc].
  assert (Hrow : 0 <= fst (relative_rowcol_in_content (content_a hunk) pt)).
  { unfold relative_rowcol_in_content.
    destruct (view_rowcol (content_a hunk)) as [head_row x].
    destruct (view_rowcol pt) as [pt_row col]. cbv zeta.
    destruct (pt_row - head_row <? 0) eqn:E; cbn [fst]; lia. }
  destruct (relative_rowcol_in_content (content_a hunk) pt) as [rel_row col].
  rewrite Hfs. cbn [fst snd] in *.
  destruct (from_filename header) as [filename|]; [|discriminate].
  destruct (truthy filename); [|discriminate].
  intros [= <-]. cbn [jt_row jt_col]. lia.
Qed.

(** X21: when no removed region of the view begins in the hunk's content
    before the cursor (as is the case for a cursor at or above the start
    of the content) the target is the start line plus the relative row, at
    the view column plus 1. *)
Theorem word_diff_jump_without_removed_text (pt : Z) (header : Header)
    (hunk : ViewHunk) (from_start : Z) (filename : str) :
  head_and_hunk_for_pt pt = Some (header, hunk) ->
  header_from_line_start hunk = Some from_start ->
  from_filename header = Some filename ->
  filename <> [] ->
  pt <= content_a hunk
  \/ Forall (fun region => ~ content_a hunk <= region_begin region < pt)
       removed_bold ->
  exists commit,
    jump_position_to_file_for_word_diff_mode pt
    = Some (mkJumpTo commit filename
              (from_start
               + fst (relative_rowcol_in_content (content_a hunk) pt))
              (snd (relative_rowcol_in_content (content_a hunk) pt) + 1)).
Proof.
  intros Hhh Hfs Hfile Hname Hnone.
  assert (Hempty : removed_regions_before_pt (content_a hunk) pt = []).
  { unfold removed_regions_before_pt.
    rewrite filter_none; [reflexivity|]. intros r Hr.
    apply andb_false_iff.
    destruct Hnone as [Hpt|Hall].
    - destruct (content_a hunk <=? region_begin r) eqn:E; [|left; reflexivity].
      right. apply Z.ltb_ge. apply Z.leb_le in E. lia.
    - rewrite Forall_forall in Hall. specialize (Hall r Hr).
      destruct (content_a hunk <=? region_begin r) eqn:E; [|left; reflexivity].
      right. apply Z.ltb_ge. apply Z.leb_le in E. lia. }
  assert (Hl : removed_lines_before_pt (content_a hunk) pt = 0)
    by (unfold removed_lines_before_pt; rewrite Hempty; reflexivity).
  assert (Hc : removed_chars_before_pt (content_a hunk) pt = 0)
    by (unfold removed_chars_before_pt; rewrite Hempty; reflexivity).
  unfold jump_position_to_file_for_word_diff_mode.
  rewrite Hhh. cbv zeta. rewrite Hl, Hc.
  destruct (relative_rowcol_in_content (content_a hunk) pt) as [rel_row col].
  rewrite Hfs, Hfile.
  assert (Htr : truthy filename = true)
    by (destruct filename; [contradiction|reflexivity]).
  rewrite Htr, !Z.sub_0_r. eexists. reflexivity.
Qed.

End WordDiffJump.

(** A view of ten characters a row: the line of a point. *)
Definition example_line (pt : Z) : Region :=
  mkRegion (pt / 10 * 10) (pt / 10 * 10 + 9).

Lemma word_diff_jump_bounds_witness :
  let jump :=
    jump_position_to_file_for_word_diff_mode unit unit unit
      [mkRegion 43 46] example_line example_rowcol
      (fun _ => Some (tt, tt)) (fun _ => 30) (fun _ => Some 10)
      (fun _ => Some (lit "a.py")) (fun _ => None) (fun _ => None) in
  jump 47 = Some (mkJumpTo None (lit "a.py") 11 5)
  /\ 10 + 1 - len [mkRegion 43 46] <= 11 /\ 11 <= 10 + 1 /\ 5 <= 7 + 1
  /\ 0 <= 1.
Proof.
  split; [reflexivity|].
  exact (word_diff_jump_bounds unit unit unit
           [mkRegion 43 46] example_line example_rowcol
           (fun _ => Some (tt, tt)) (fun _ => 30) (fun _ => Some 10)
           (fun _ => Some (lit "a.py")) (fun _ => None) (fun _ => None)
           47 (mkJumpTo None (lit "a.py") 11 5) tt tt 10
           eq_refl eq_refl eq_refl).
Defined.

Lemma word_diff_jump_without_removed_text_witness :
  exists commit,
    jump_position_to_file_for_word_diff_mode unit unit unit
      [mkRegion 43 46] example_line example_rowcol
      (fun _ => Some (tt, tt)) (fun _ => 30) (fun _ => Some 10)
      (fun _ => Some (lit "a.py")) (fun _ => None) (fun _ => None) 25
    = Some (mkJumpTo commit (lit "a.py") (10 + 0) (0 + 1)).
Proof.
  apply (word_diff_jump_without_removed_text unit unit unit
           [mkRegion 43 46] example_line example_rowcol
           (fun _ => Some (tt, tt)) (fun _ => 30) (fun _ => Some 10)
           (fun _ => Some (lit "a.py")) (fun _ => None) (fun _ => None)
           25 tt tt 10 (lit "a.py")).
  - reflexivity.
  - reflexivity.
  - reflexivity.
  - discriminate.
  - left. cbv beta. lia.
Defined.
